(** * Model-guided fuzzing of etcd raft: event emission, TLC client, guider,
      fuzzer loop and the Pub/Sub client

    A shallow embedding of the Go code of the repository:
    - the role-diff and commit-index event emission of [raft.go],
    - [TLCClient.SendTrace] of [tlc_client.go],
    - [TLCStateGuider.Check] of [guider.go],
    - the mutation loop of [fuzzer.go],
    - [PubSubClient] of [pubsub/client.go].

    Go values are modelled as the code has them: [int] and [int64] as [Z]
    with the two's complement wrap-around written out, [uint64] as a
    non-negative [Z], [map[K]V] as stdpp's [gmap], slices as [list],
    [float64] as the IEEE 754 binary64 numbers of [SpecFloat],
    [(T, error)] results as a sum, [panic] as an outcome of its own. *)

From stdpp Require Import base gmap strings list sorting.
From Stdlib Require Import ZArith Lia.
From Stdlib Require Import Floats.SpecFloat.

Local Open Scope string_scope.
Local Open Scope list_scope.
Local Open Scope Z_scope.
Local Set Warnings "-register-all,-clear-no-such-hyp".

(** ** Go machine integers *)

(** Conversion to the 64-bit signed [int]: two's complement wrap-around. *)
Definition int64_wrap (z : Z) : Z := (z + 2 ^ 63) `mod` 2 ^ 64 - 2 ^ 63.

(** [int(id)] for [id : uint64]. *)
Definition int_of_uint64 (u : Z) : Z := int64_wrap u.

(** Go's builtin [max] on [int]. *)
Definition go_max (a b : Z) : Z := if a <? b then b else a.

(** ** Go's [float64] *)

(** IEEE 754 binary64: 53 bits of precision, exponents below 1024. *)
Definition float64 : Type := spec_float.

(** [float64(n)] for an integer [n]: the nearest float, ties to even. *)
Definition float64_of_int (n : Z) : float64 :=
  binary_normalize 53 1024 n 0 false.

(** [x / y] on [float64]. *)
Definition float64_div (x y : float64) : float64 := SFdiv 53 1024 x y.

(** ** [types.go]: events *)

(** The dynamic values stored in [Params map[string]interface{}].  [VFunc]
    stands for the values [encoding/json] rejects (functions, channels). *)
Inductive Value : Type :=
| VInt (n : Z)
| VUint64 (n : Z)
| VString (s : string)
| VBool (b : bool)
| VFunc.

#[global] Instance Value_eq_dec : EqDecision Value.
Proof. solve_decision. Defined.

(** <<
type Event struct {
    Name   string
    Node   uint64 `json:"-"`
    Params map[string]interface{}
    Reset  bool
}
>>  A [nil] map is [None]. *)
Record Event : Type := mkEvent
  { Name : string; Node : Z; Params : option (gmap string Value); Reset : bool }.

#[global] Instance Event_eq_dec : EqDecision Event.
Proof. solve_decision. Defined.

(** An event trace, [*List[*Event]], is the sequence of its elements. *)
Abbreviation EventTrace := (list Event).

(** [ctx.AddEvent(e)]: the event is appended to the context's trace. *)
Definition AddEvent (e : Event) (tr : EventTrace) : EventTrace := tr ++ [e].

(** ** [raft.go]: event emission *)

Module Raft.

(** The roles of the raft library, [raft.StateType]. *)
Inductive StateType : Type :=
| StateFollower
| StateCandidate
| StateLeader
| StatePreCandidate.

#[global] Instance StateType_eq_dec : EqDecision StateType.
Proof. solve_decision. Defined.

Definition BecomeLeader (id : Z) : Event :=
  mkEvent "BecomeLeader" id (Some {[ "node" := VUint64 id ]}) false.

Definition ClientRequest (request : Z) (leader : Z) : Event :=
  mkEvent "ClientRequest" leader
    (Some {[ "request" := VInt request; "leader" := VUint64 leader ]}) false.

Definition Timeout (id : Z) : Event :=
  mkEvent "Timeout" id (Some {[ "node" := VUint64 id ]}) false.

Definition AdvanceCommitIndex (id : Z) : Event :=
  mkEvent "AdvanceCommitIndex" id
    (Some {[ "i" := VInt (int_of_uint64 id) ]}) false.

(** The role diff of one node: [old], [oldTerm] are the snapshot taken
    before the step, [new], [newTerm] the node's status after it.
<<
if old != new && new == raft.StateLeader {
    ctx.AddEvent(BecomeLeader); ctx.AddEvent(ClientRequest{0, id})
} else if (old != new && new == raft.StateCandidate) ||
          (oldTerm < newTerm && old == new && new == raft.StateCandidate) {
    ctx.AddEvent(Timeout)
}
>> *)
Definition roleDiff (id : Z) (old new : StateType) (oldTerm newTerm : Z)
    (tr : EventTrace) : EventTrace :=
  if bool_decide (old ≠ new) && bool_decide (new = StateLeader) then
    AddEvent (ClientRequest 0 id) (AddEvent (BecomeLeader id) tr)
  else if (bool_decide (old ≠ new) && bool_decide (new = StateCandidate))
          || ((oldTerm <? newTerm) && bool_decide (old = new)
              && bool_decide (new = StateCandidate)) then
    AddEvent (Timeout id) tr
  else tr.

Section Ready.
(** [pb.Entry] is the library's; only the number of entries matters. *)
Variable Entry : Type.

Record Ready : Type := mkReady { CommittedEntries : list Entry }.

(** <<
if len(ready.CommittedEntries) > 0 { ctx.AddEvent(AdvanceCommitIndex) }
>> *)
Definition commitDiff (id : Z) (ready : Ready) (tr : EventTrace)
    : EventTrace :=
  if 0 <? Z.of_nat (length (CommittedEntries ready)) then
    AddEvent (AdvanceCommitIndex id) tr
  else tr.
End Ready.

Arguments mkReady {Entry} _.
Arguments CommittedEntries {Entry} _.
Arguments commitDiff {Entry} id ready tr.

(** The events a step added: what follows the old trace. *)
Definition emitted (before after : EventTrace) : EventTrace :=
  drop (length before) after.

(** How many events of a given name a trace holds. *)
Definition countName (name : string) (tr : EventTrace) : nat :=
  length (filter (λ e, Name e = name) tr).

(** The condition for a [Timeout] in the words of the specification: the
    role became Candidate under a strictly greater term, or the node went
    from Follower to Candidate. *)
Definition specTimeout (old new : StateType) (oldTerm newTerm : Z) : Prop :=
  (new = StateCandidate ∧ oldTerm < newTerm)
  ∨ (old = StateFollower ∧ new = StateCandidate).

(** The same under the narrower reading, where "became Candidate under a
    greater term" is a node that stays Candidate. *)
Definition specTimeoutNarrow (old new : StateType) (oldTerm newTerm : Z)
    : Prop :=
  (old = StateCandidate ∧ new = StateCandidate ∧ oldTerm < newTerm)
  ∨ (old = StateFollower ∧ new = StateCandidate).

(** The condition the code tests. *)
Definition codeTimeout (old new : StateType) (oldTerm newTerm : Z) : Prop :=
  new = StateCandidate ∧ (old ≠ StateCandidate ∨ oldTerm < newTerm).

End Raft.

(** ** Results, errors and panics *)

(** A Go [(T, error)] pair: either the value or the error's text. *)
Inductive result (A : Type) : Type :=
| Ok (a : A)
| Err (msg : string).
Arguments Ok {A} a.
Arguments Err {A} msg.

Definition bindR {A B : Type} (r : result A) (k : A → result B) : result B :=
  match r with
  | Ok a => k a
  | Err e => Err e
  end.

Fixpoint mapR {A B : Type} (f : A → result B) (l : list A) : result (list B) :=
  match l with
  | [] => Ok []
  | x :: l' => bindR (f x) (λ y, bindR (mapR f l') (λ ys, Ok (y :: ys)))
  end.

(** A call either returns or panics with a message. *)
Inductive outcome (A : Type) : Type :=
| Returned (a : A)
| Panicked (msg : string).
Arguments Returned {A} a.
Arguments Panicked {A} msg.

(** ** [encoding/json] on events *)

Inductive json : Type :=
| JNull
| JBool (b : bool)
| JNumber (n : Z)
| JString (s : string)
| JArray (elems : list json)
| JObject (fields : list (string * json)).

Definition unsupportedType : string := "json: unsupported type: func()".

Definition marshalValue (v : Value) : result json :=
  match v with
  | VInt n => Ok (JNumber n)
  | VUint64 n => Ok (JNumber n)
  | VString s => Ok (JString s)
  | VBool b => Ok (JBool b)
  | VFunc => Err unsupportedType
  end.

(** Map keys are written in sorted order. *)
Definition keyLe (p q : string * Value) : Prop := String.leb p.1 q.1 = true.

#[global] Instance keyLe_dec : RelDecision keyLe.
Proof. intros p q. unfold keyLe. apply _. Defined.

Definition marshalField (p : string * Value) : result (string * json) :=
  bindR (marshalValue p.2) (λ j, Ok (p.1, j)).

(** A [nil] map is written as [null]. *)
Definition marshalParams (ps : option (gmap string Value)) : result json :=
  match ps with
  | None => Ok JNull
  | Some m =>
      bindR (mapR marshalField (merge_sort keyLe (map_to_list m)))
            (λ fs, Ok (JObject fs))
  end.

(** The struct fields in declaration order; [Node] carries the tag
    [json:"-"] and is left out. *)
Definition marshalEvent (e : Event) : result json :=
  bindR (marshalParams (Params e))
        (λ ps, Ok (JObject [("Name", JString (Name e)); ("Params", ps);
                            ("Reset", JBool (Reset e))])).

(** Modelled from the spec: the list type [List] and its marshalling are
    declared outside the sources; the request body is the array of the
    event objects. *)
Definition marshalTrace (tr : EventTrace) : result json :=
  bindR (mapR marshalEvent tr) (λ es, Ok (JArray es)).

(** ** [tlc_client.go] *)

Module TLC.

(** An abstract state of the model: [State{Repr, Key}], [Key] an [int64]. *)
Record State : Type := mkState { Repr : string; Key : Z }.

Record TLCClient : Type := mkTLCClient { ClientAddr : string }.

(** One [http.Post]. *)
Record Request : Type := mkRequest
  { url : string; contentType : string; body : json }.

(** The world outside the client: [httpPost] is the server's answer to a
    request (the response, or the transport error), [processResponse]
    stands for the block of [SendTrace] the sources leave out
    ("response processing"), which either returns an error or yields the
    [result] that [SendTrace] returns. *)
Record Server : Type := mkServer
  { httpPost : Request → result string;
    processResponse : string → result (list State) }.

(** The end-of-trace sentinel, [&Event{Reset: true}]. *)
Definition sentinel : Event := mkEvent "" 0 None true.

(** [SendTrace] appends the sentinel to the caller's list in place, so the
    trace it leaves behind is returned with the requests it issued and
    its result. *)
Definition SendTrace (c : TLCClient) (srv : Server) (trace : EventTrace)
    : EventTrace * list Request * result (list State) :=
  let trace' := trace ++ [sentinel] in
  match marshalTrace trace' with
  | Err err => (trace', [], Err ("error marshalling json: " +:+ err))
  | Ok data =>
      let req := mkRequest ("http://" +:+ ClientAddr c +:+ "/execute")
                           "application/json" data in
      match httpPost srv req with
      | Err err =>
          (trace', [req], Err ("error sending trace to tlc: " +:+ err))
      | Ok res => (trace', [req], processResponse srv res)
      end
  end.

(** The client cannot reach the server, or cannot process its reply. *)
Definition transportFailure (c : TLCClient) (srv : Server)
    (trace : EventTrace) : Prop :=
  ∃ data, marshalTrace (trace ++ [sentinel]) = Ok data
    ∧ let req := mkRequest ("http://" +:+ ClientAddr c +:+ "/execute")
                           "application/json" data in
      ((∃ err, httpPost srv req = Err err)
       ∨ (∃ res err, httpPost srv req = Ok res
                     ∧ processResponse srv res = Err err)).

(** The value of a field of a JSON object. *)
Definition field (name : string) (j : json) : option json :=
  match j with
  | JObject fs => snd <$> List.find (λ p, bool_decide (p.1 = name)) fs
  | _ => None
  end.

End TLC.

(** ** [guider.go] *)

(** Modelled from the spec: the declaration of [SchedulingChoice] in
    [types.go] is not among the sources; a choice is a tagged variant
    [Node{node}], [RandomBoolean{value}] or [RandomInteger{value}]. *)
Inductive SchedulingChoice : Type :=
| NodeChoice (node : Z)
| RandomBoolean (value : bool)
| RandomInteger (value : Z).

Abbreviation Trace := (list SchedulingChoice).

Module Guider.
Import TLC.

(** [statesMap] is the [map[int64]bool] of the keys seen; [records] lists
    the calls of [recordTrace], whose body is not among the sources. *)
Record TLCStateGuider : Type := mkGuider
  { statesMap : gmap Z bool;
    tlcClient : TLCClient;
    records : list (Trace * EventTrace * list State) }.

Definition recordTrace (t : TLCStateGuider) (trace : Trace)
    (eventTrace : EventTrace) (states : list State) : TLCStateGuider :=
  mkGuider (statesMap t) (tlcClient t)
           (records t ++ [(trace, eventTrace, states)]).

(** One round of the loop over the returned states. *)
Definition visit (acc : gmap Z bool * Z) (s : State) : gmap Z bool * Z :=
  match acc.1 !! Key s with
  | Some _ => acc
  | None => (<[Key s := true]> acc.1, acc.2 + 1)
  end.

(** <<
curStates := len(t.statesMap)
numNewStates := 0
if tlcStates, err := t.tlcClient.SendTrace(eventTrace); err == nil {
    t.recordTrace(trace, eventTrace, tlcStates)
    for _, s := range tlcStates { ... }
} else {
    panic(fmt.Sprintf("error connecting to tlc: %s", err))
}
return numNewStates, float64(numNewStates) / float64(max(curStates, 1))
>>  The guider and the event trace after the call are returned with the
    requests issued and the call's outcome.  The counters are bounded by
    the lengths of a map and of a slice, so they do not wrap.  The sources
    elide the hashing of the two traces, before and after these
    statements; it is left out here. *)
Definition Check (srv : Server) (t : TLCStateGuider) (trace : Trace)
    (eventTrace : EventTrace)
    : TLCStateGuider * EventTrace * list Request * outcome (Z * float64) :=
  let curStates := Z.of_nat (size (statesMap t)) in
  match SendTrace (tlcClient t) srv eventTrace with
  | (eventTrace', reqs, Ok tlcStates) =>
      let t1 := recordTrace t trace eventTrace' tlcStates in
      let acc := foldl visit (statesMap t1, 0) tlcStates in
      (mkGuider acc.1 (tlcClient t1) (records t1), eventTrace', reqs,
       Returned (acc.2, float64_div (float64_of_int acc.2)
                                    (float64_of_int (go_max curStates 1))))
  | (eventTrace', reqs, Err err) =>
      (t, eventTrace', reqs, Panicked ("error connecting to tlc: " +:+ err))
  end.

(** The guider left by a call. *)
Definition after (r : TLCStateGuider * EventTrace * list Request
                      * outcome (Z * float64)) : TLCStateGuider := r.1.1.1.

(** The guider's state set. *)
Definition states (t : TLCStateGuider) : gset Z := dom (statesMap t).

(** One operation of a campaign on the guider. *)
Inductive step : TLCStateGuider → TLCStateGuider → Prop :=
| step_Check srv t trace eventTrace :
    step t (after (Check srv t trace eventTrace)).

(** Any number of operations. *)
Inductive steps : TLCStateGuider → TLCStateGuider → Prop :=
| steps_refl t : steps t t
| steps_cons t1 t2 t3 : step t1 t2 → steps t2 t3 → steps t1 t3.

End Guider.

(** ** [fuzzer.go]: scoring one iteration and enqueueing mutants *)

Module Fuzzer.
Import TLC Guider.

(** Modelled from the spec: [copyTrace] and the copy filters are declared
    outside the sources; a trace is deep-copied under a copy filter, a
    predicate over choices, which keeps the choices the filter accepts. *)
Definition copyTrace (t : Trace) (keep : SchedulingChoice → bool) : Trace :=
  List.filter keep t.

(** Modelled from the spec: the queue type is declared outside the
    sources; [Push] adds a trace behind the ones already queued. *)
Definition Push (t : Trace) (queue : list Trace) : list Trace := queue ++ [t].

(** The [Mutator] interface.  A mutator draws random numbers, so a call
    also changes the mutator [M]. *)
Class Mutator (M : Type) : Type :=
  { Mutate : M → Trace → EventTrace → M * (Trace * bool) }.

Section Loop.
Context {M : Type} `{Mutator M}.
(** [defaultCopyFilter()], declared outside the sources. *)
Variable defaultCopyFilter : SchedulingChoice → bool.

(** The fields of the fuzzer the loop touches. *)
Record Fuzzer : Type := mkFuzzer
  { mutator : M; MutPerTrace : Z; mutatedTracesQueue : list Trace }.

(** <<
for j := 0; j < numMutations; j++ {
    new, ok := f.config.Mutator.Mutate(trace, eventTrace)
    if ok { f.mutatedTracesQueue.Push(copyTrace(new, defaultCopyFilter())) }
}
>>  The second component lists the results of the calls of [Mutate], in
    the order of the calls. *)
Fixpoint mutateLoop (n : nat) (trace : Trace) (eventTrace : EventTrace)
    (f : Fuzzer) : Fuzzer * list (Trace * bool) :=
  match n with
  | O => (f, [])
  | S n' =>
      let r := Mutate (mutator f) trace eventTrace in
      let queue := if r.2.2
                   then Push (copyTrace r.2.1 defaultCopyFilter)
                             (mutatedTracesQueue f)
                   else mutatedTracesQueue f in
      let rest := mutateLoop n' trace eventTrace
                    (mkFuzzer r.1 (MutPerTrace f) queue) in
      (rest.1, r.2 :: rest.2)
  end.

(** <<
if numNewStates > 0 {
    numMutations := numNewStates * f.config.MutPerTrace
    for ...
}
>> *)
Definition mutateNew (numNewStates : Z) (trace : Trace)
    (eventTrace : EventTrace) (f : Fuzzer) : Fuzzer * list (Trace * bool) :=
  if 0 <? numNewStates then
    let numMutations := int64_wrap (numNewStates * MutPerTrace f) in
    mutateLoop (Z.to_nat numMutations) trace eventTrace f
  else (f, []).

(** The end of an iteration: the guider scores the traces, then the
    mutants are enqueued.  [SendTrace] has appended its sentinel to the
    event trace the mutator is given; a panic of the guider ends the run. *)
Definition scoreAndMutate (srv : Server) (g : TLCStateGuider) (f : Fuzzer)
    (trace : Trace) (eventTrace : EventTrace)
    : outcome (TLCStateGuider * Fuzzer * list (Trace * bool)) :=
  match Check srv g trace eventTrace with
  | (g', eventTrace', _, Returned (numNewStates, _)) =>
      let r := mutateNew numNewStates trace eventTrace' f in
      Returned (g', r.1, r.2)
  | (_, _, _, Panicked msg) => Panicked msg
  end.

(** The children of the successful calls, copied, in the order of the calls. *)
Definition children (calls : list (Trace * bool)) : list Trace :=
  (λ r, copyTrace r.1 defaultCopyFilter) <$> List.filter snd calls.

End Loop.

Arguments Fuzzer M : clear implicits.
Arguments mkFuzzer {M} _ _ _.

(** Modelled from the spec: [EmptyMutator] is declared outside the
    sources; it always returns the identity. *)
#[global] Instance EmptyMutator : Mutator unit :=
  {| Mutate := λ m trace _, (m, (trace, true)) |}.

End Fuzzer.

(** ** [pubsub/client.go] *)

Module PubSub.

(** [pubsub.Message]: the fields the client fills in or reads. *)
Record Message : Type := mkMessage
  { ID : string; Data : string; Attributes : option (gmap string string) }.

Inductive AckMode : Type :=
| AckModeNack
| AckModeAck.

(** The contexts the client builds. *)
Inductive Context : Type :=
| Background
| WithCancel (parent : Context)
| WithTimeout (parent : Context) (timeout : Z).

(** The non-nil values of [ctx.Err()]. *)
Inductive ctxError : Type :=
| Canceled
| DeadlineExceeded.

Definition ctxErrorText (e : ctxError) : string :=
  match e with
  | Canceled => "context canceled"
  | DeadlineExceeded => "context deadline exceeded"
  end.

(** What a call does to the world outside the client's struct. *)
Inductive Effect : Type :=
| StartReceiver
| Wait (ctx : Context)
| Ack (m : Message)
| Nack (m : Message)
| Publish (ctx : Context) (m : Message)
| Get (ctx : Context).

(** The fields of [PubSubClient] the modelled methods use; [receiverOnce]
    tells whether the [sync.Once] has fired. *)
Record PubSubClient : Type := mkClient
  { messageBuffer : list Message;
    ctx : Context;
    ackMode : AckMode;
    receiverStarted : bool;
    receiverOnce : bool }.

Definition withBuffer (c : PubSubClient) (buf : list Message) : PubSubClient :=
  mkClient buf (ctx c) (ackMode c) (receiverStarted c) (receiverOnce c).

(** The case the [select] of [ReceiveMessage] takes, with what it reads:
    a message (or [nil]) from [messageChan], an error from [errorChan],
    each with the channel's [ok], or the context's end with [ctx.Err()]. *)
Inductive Selected : Type :=
| FromMessageChan (msg : option Message) (ok : bool)
| FromErrorChan (err : string) (ok : bool)
| CtxDone (err : ctxError).

(** [receiverOnce.Do]: the first call marks the receiver started and
    spawns the goroutine. *)
Definition startContinuousReceiver (c : PubSubClient)
    : PubSubClient * list Effect :=
  if receiverOnce c then (c, [])
  else (mkClient (messageBuffer c) (ctx c) (ackMode c) true true,
        [StartReceiver]).

Definition ReceiveMessage (c : PubSubClient) (timeout : Z) (sel : Selected)
    : PubSubClient * list Effect * result Message :=
  match messageBuffer c with
  | msg :: rest => (withBuffer c rest, [], Ok msg)
  | [] =>
      let (c', started) := startContinuousReceiver c in
      let waited := started ++ [Wait (WithTimeout (ctx c) timeout)] in
      match sel with
      | FromMessageChan _ false => (c', waited, Err "message channel closed")
      | FromMessageChan (Some msg) true =>
          match ackMode c with
          | AckModeAck => (c', waited ++ [Ack msg], Ok msg)
          | AckModeNack => (c', waited ++ [Nack msg], Ok msg)
          end
      | FromMessageChan None true => (c', waited, Err "received nil message")
      | FromErrorChan _ false => (c', waited, Err "error channel closed")
      | FromErrorChan err true => (c', waited, Err ("receiver error: " +:+ err))
      | CtxDone DeadlineExceeded =>
          (c', waited, Err "timeout waiting for message")
      | CtxDone Canceled => (c', waited, Err (ctxErrorText Canceled))
      end
  end.

Definition BufferMessage (c : PubSubClient) (msg : Message) : PubSubClient :=
  withBuffer c (messageBuffer c ++ [msg]).

(** The world a publish meets: what [result.Get(ctx)] yields and what
    [ctx.Err()] is afterwards, for the context in use. *)
Record Broker : Type := mkBroker
  { getResult : Context → Message → result string;
    ctxErr : Context → option ctxError }.

(** The context [PublishMessage] publishes under. *)
Definition publishContext (c : PubSubClient) (timeout : Z) : Context :=
  if 0 <? timeout then WithTimeout (ctx c) timeout else ctx c.

(** Go's [(string, error)]: the id and the error, [None] for [nil]. *)
Definition PublishMessage (c : PubSubClient) (data : string)
    (attributes : option (gmap string string)) (timeout : Z) (w : Broker)
    : list Effect * (string * option string) :=
  let msg := mkMessage "" data attributes in
  let ctx' := publishContext c timeout in
  let effects := [Publish ctx' msg; Get ctx'] in
  match getResult w ctx' msg with
  | Err err =>
      match ctxErr w ctx' with
      | Some DeadlineExceeded =>
          (effects, ("", Some ("timeout publishing message: " +:+ err)))
      | _ => (effects, ("", Some ("failed to publish message: " +:+ err)))
      end
  | Ok id => (effects, (id, None))
  end.

(** The results of [n] calls of [ReceiveMessage] in a row, each with the
    effects it had. *)
Fixpoint receiveN (n : nat) (c : PubSubClient) (timeout : Z) (sel : Selected)
    : PubSubClient * list (list Effect * result Message) :=
  match n with
  | O => (c, [])
  | S n' =>
      let r := ReceiveMessage c timeout sel in
      let rest := receiveN n' r.1.1 timeout sel in
      (rest.1, (r.1.2, r.2) :: rest.2)
  end.

End PubSub.

(** ** Sample values *)

Module Examples.
Import Raft TLC Guider Fuzzer PubSub.

(** A server that answers every trace with three states, two of them with
    the same key. *)
Definition srvUp : Server :=
  mkServer (λ _, Ok "{}")
           (λ _, Ok [mkState "s0" 11; mkState "s1" 12; mkState "s1" 12]).

(** A server that cannot be reached. *)
Definition srvDown : Server :=
  mkServer (λ _, Err "connection refused") (λ _, Ok []).

Definition guider0 : TLCStateGuider :=
  mkGuider {[ 11 := true ]} (mkTLCClient "127.0.0.1:2023") [].

Definition events0 : EventTrace := [Timeout 1; BecomeLeader 1; ClientRequest 0 1].

Definition trace0 : Trace := [NodeChoice 1; RandomBoolean true; NodeChoice 2].

Definition fuzzer0 : Fuzzer unit := mkFuzzer tt 2 [].

Definition keepAll : SchedulingChoice → bool := λ _, true.

Definition hello : Message := mkMessage "1" "hello" None.
Definition world : Message := mkMessage "2" "world" None.

Definition client0 : PubSubClient :=
  mkClient [hello] (WithCancel Background) AckModeAck false false.

(** A broker whose publish does not complete before the deadline. *)
Definition brokerSlow : Broker :=
  mkBroker (λ _ _, Err "context deadline exceeded")
           (λ c, match c with WithTimeout _ _ => Some DeadlineExceeded | _ => None end).

End Examples.

(** ** [raft.go]: the traces the emission sites build *)

Module Harness.
Import Raft.

(** The emission site of a client request:
<<
ctx.AddEvent(&Event{Name: "ClientRequest", Node: leader,
    Params: map[string]interface{}{"request": request, "leader": leader}})
>> *)
Definition clientRequest (request : Z) (leader : Z) (tr : EventTrace)
    : EventTrace :=
  AddEvent (ClientRequest request leader) tr.

(** The traces built from the empty one by the emission sites of [raft.go]. *)
Inductive emits : EventTrace → Prop :=
| emits_nil : emits []
| emits_clientRequest request leader tr :
    emits tr → emits (clientRequest request leader tr)
| emits_roleDiff id old new oldTerm newTerm tr :
    emits tr → emits (roleDiff id old new oldTerm newTerm tr)
| emits_commitDiff (Entry : Type) id (ready : Ready Entry) tr :
    emits tr → emits (commitDiff id ready tr).

End Harness.

(** ** [tlc_client.go]: what can be marshalled, and repeated sends *)

Module TLCMore.
Import TLC.

(** An event [encoding/json] accepts: no value of its [Params] is of an
    unsupported kind. *)
Definition marshalable (e : Event) : Prop :=
  match Params e with
  | None => True
  | Some m => map_Forall (λ _ v, v ≠ VFunc) m
  end.

(** [n] calls of [SendTrace] on the same list, which each call extends. *)
Fixpoint sendN (n : nat) (c : TLCClient) (srv : Server) (trace : EventTrace)
    : EventTrace * list Request :=
  match n with
  | O => (trace, [])
  | S n' =>
      let r := SendTrace c srv trace in
      let rest := sendN n' c srv r.1.1 in
      (rest.1, r.1.2 ++ rest.2)
  end.

End TLCMore.

(** ** [pubsub/client.go]: the receiver goroutine and [Close] *)

Module Receiver.
Import PubSub.

(** [make(chan *pubsub.Message, 100)] and [make(chan error, 10)]. *)
Definition messageChanCap : nat := 100.
Definition errorChanCap : nat := 10.

(** The errors [subscription.Receive] can return: one of the context's, or
    another one, given by its text. *)
Inductive goError : Type :=
| CtxError (e : ctxError)
| OtherError (text : string).

#[global] Instance ctxError_eq_dec : EqDecision ctxError.
Proof. solve_decision. Defined.

#[global] Instance goError_eq_dec : EqDecision goError.
Proof. solve_decision. Defined.

(** Which of the two contexts a [select] finds done: the client's and the
    message's. *)
Record Dones : Type := mkDones { clientDone : bool; msgDone : bool }.

Definition anyDone (d : Dones) : bool := clientDone d || msgDone d.

(** The callback given to [subscription.Receive], on the buffered
    [messageChan].  [first] and [second] are what the two [select]s find;
    [pickSend] is the runtime's choice when the send and a [Done] case can
    both proceed.
<<
select { case <-c.ctx.Done(): return; case <-ctx.Done(): return; default: }
select {
case c.messageChan <- msg:
case <-c.ctx.Done(): return
case <-ctx.Done(): return
default: msg.Nack()
}
>> *)
Definition onMessage (first second : Dones) (pickSend : bool) (msg : Message)
    (messageChan : list Message) : list Message * list Effect :=
  if anyDone first then (messageChan, [])
  else
    let canSend := bool_decide (length messageChan < messageChanCap)%nat in
    if canSend && (negb (anyDone second) || pickSend)
    then (messageChan ++ [msg], [])
    else if anyDone second then (messageChan, [])
    else (messageChan, [Nack msg]).

(** The end of the goroutine, when [subscription.Receive] has returned
    [err]: the error is passed on, and the deferred function clears
    [receiverStarted]; the [sync.Once] stays fired.
<<
if err != nil && err != context.Canceled {
    select { case c.errorChan <- err: case <-c.ctx.Done(): default: }
}
>> *)
Definition receiverDone (err : option goError) (done pickSend : bool)
    (c : PubSubClient) (errorChan : list goError)
    : PubSubClient * list goError :=
  let errorChan' :=
    match err with
    | Some e =>
        if bool_decide (e ≠ CtxError Canceled) then
          let canSend := bool_decide (length errorChan < errorChanCap)%nat in
          if canSend && (negb done || pickSend) then errorChan ++ [e]
          else errorChan
        else errorChan
    | None => errorChan
    end in
  (mkClient (messageBuffer c) (ctx c) (ackMode c) false (receiverOnce c),
   errorChan').

(** What a user and the goroutine do to a client, one after the other. *)
Inductive Op : Type :=
| OpReceive (timeout : Z) (sel : Selected)
| OpBuffer (msg : Message)
| OpReceiverDone.

Definition runOp (c : PubSubClient) (op : Op) : PubSubClient * list Effect :=
  match op with
  | OpReceive timeout sel => (ReceiveMessage c timeout sel).1
  | OpBuffer msg => (BufferMessage c msg, [])
  | OpReceiverDone => ((receiverDone None false false c []).1, [])
  end.

Fixpoint runOps (c : PubSubClient) (ops : list Op)
    : PubSubClient * list Effect :=
  match ops with
  | [] => (c, [])
  | op :: ops' =>
      let r := runOp c op in
      let rest := runOps r.1 ops' in
      (rest.1, r.2 ++ rest.2)
  end.

Definition isStart (e : Effect) : bool :=
  match e with
  | StartReceiver => true
  | _ => false
  end.

Definition isAckOrNack (e : Effect) : bool :=
  match e with
  | Ack _ | Nack _ => true
  | _ => false
  end.

(** What [Close] calls. *)
Inductive CloseCall : Type :=
| CancelCtx
| StopTopic
| Sleep (milliseconds : Z)
| CloseClient.

(** The value [Close] reads from [receiverStarted] at its [i]-th look: the
    goroutine, if it runs, clears the flag before look [stops]. *)
Definition observed (c : PubSubClient) (stops : option nat) (i : nat) : bool :=
  receiverStarted c
  && match stops with
     | Some k => bool_decide (i < k)%nat
     | None => true
     end.

(** <<
for i := 0; i < 100; i++ {
    started := c.receiverStarted
    if !started { break }
    time.Sleep(10 * time.Millisecond)
}
>>  [n] is the number of rounds left. *)
Fixpoint waitReceiver (n i : nat) (started : nat → bool) : list CloseCall :=
  match n with
  | O => []
  | S n' =>
      if started i then Sleep 10 :: waitReceiver n' (S i) started else []
  end.

(** [closeErr] is what [c.client.Close()] returns. *)
Definition Close (c : PubSubClient) (stops : option nat)
    (closeErr : option string) : list CloseCall * option string :=
  let calls := [CancelCtx; StopTopic]
               ++ waitReceiver 100 0 (observed c stops) ++ [CloseClient] in
  match closeErr with
  | Some err => (calls, Some ("failed to close pubsub client: " +:+ err))
  | None => (calls, None)
  end.

(** A context has a deadline if it or a context it derives from was made
    by [WithTimeout]. *)
Fixpoint hasDeadline (c : Context) : bool :=
  match c with
  | Background => false
  | WithCancel parent => hasDeadline parent
  | WithTimeout _ _ => true
  end.

(** Contexts report [DeadlineExceeded] only if they have a deadline. *)
Definition brokerSound (w : Broker) : Prop :=
  ∀ c, ctxErr w c = Some DeadlineExceeded → hasDeadline c = true.

End Receiver.

(** ** [pubsub/client.go]: [NewPubSubClient] *)

Module Setup.
Import PubSub.

(** The client's [SubscriptionConfig]; durations in nanoseconds. *)
Record SubscriptionConfig : Type := mkSubscriptionConfig
  { AckDeadline : Z; RetentionDuration : Z; ExpirationPolicy : Z;
    Filter : string }.

Record Config : Type := mkConfig
  { ProjectID : string; TopicID : string; SubscriptionID : string;
    Credentials : string; AckMode : PubSub.AckMode;
    SubConfig : option SubscriptionConfig }.

(** The library's [pubsub.SubscriptionConfig], with the fields the client
    sets; [ExpirationPolicy] is an [interface{}], [nil] if not set. *)
Record LibSubscriptionConfig : Type := mkLibSubscriptionConfig
  { libTopic : string; libAckDeadline : Z; libRetentionDuration : Z;
    libExpirationPolicy : option Z; libFilter : string }.

(** The calls [NewPubSubClient] makes. *)
Inductive Call : Type :=
| CallNewClient (project : string) (credentialsFiles : list string)
| CallTopicExists (topic : string)
| CallCreateTopic (topic : string)
| CallSubscriptionExists (subscription : string)
| CallCreateSubscription (subscription : string) (cfg : LibSubscriptionConfig)
| CallCancel.

(** What the service answers; [None] is a [nil] error. *)
Record Cloud : Type := mkCloud
  { newClient : string → list string → option string;
    topicExists : string → result bool;
    createTopic : string → option string;
    subscriptionExists : string → result bool;
    createSubscription : string → LibSubscriptionConfig → option string }.

(** <<
subCfg := pubsub.SubscriptionConfig{Topic: topic}
if cfg.SubConfig != nil {
    if cfg.SubConfig.AckDeadline > 0 { subCfg.AckDeadline = ... }
    if cfg.SubConfig.RetentionDuration > 0 { ... }
    if cfg.SubConfig.ExpirationPolicy > 0 { ... }
    if cfg.SubConfig.Filter != "" { ... }
}
>> *)
Definition subscriptionConfig (cfg : Config) : LibSubscriptionConfig :=
  let zero := mkLibSubscriptionConfig (TopicID cfg) 0 0 None "" in
  match SubConfig cfg with
  | None => zero
  | Some sc =>
      mkLibSubscriptionConfig (TopicID cfg)
        (if 0 <? AckDeadline sc then AckDeadline sc else 0)
        (if 0 <? RetentionDuration sc then RetentionDuration sc else 0)
        (if 0 <? ExpirationPolicy sc then Some (ExpirationPolicy sc) else None)
        (if bool_decide (Filter sc ≠ "") then Filter sc else "")
  end.

(** The second half of [NewPubSubClient], from
    [sub := client.Subscription(cfg.SubscriptionID)] on; [calls] are the
    calls made so far. *)
Definition ensureSubscription (cfg : Config) (w : Cloud) (calls : list Call)
    : list Call * result PubSubClient :=
  let fresh := mkClient [] (WithCancel Background) (AckMode cfg) false false in
  let calls := calls ++ [CallSubscriptionExists (SubscriptionID cfg)] in
  match subscriptionExists w (SubscriptionID cfg) with
  | Err err =>
      (calls ++ [CallCancel],
       Err ("failed to check subscription existence: " +:+ err))
  | Ok true => (calls, Ok fresh)
  | Ok false =>
      let calls := calls ++ [CallCreateSubscription (SubscriptionID cfg)
                                                    (subscriptionConfig cfg)] in
      match createSubscription w (SubscriptionID cfg)
              (subscriptionConfig cfg) with
      | Some err =>
          (calls ++ [CallCancel],
           Err ("failed to create subscription: " +:+ err))
      | None => (calls, Ok fresh)
      end
  end.

(** The calls made, in order, and the client or the error.  The option
    [WithCredentialsFile] is passed only for a non-empty path. *)
Definition NewPubSubClient (cfg : Config) (w : Cloud)
    : list Call * result PubSubClient :=
  let opts := if bool_decide (Credentials cfg ≠ "") then [Credentials cfg]
              else [] in
  let calls := [CallNewClient (ProjectID cfg) opts] in
  match newClient w (ProjectID cfg) opts with
  | Some err =>
      (calls ++ [CallCancel],
       Err ("failed to create pubsub client: " +:+ err))
  | None =>
      let calls := calls ++ [CallTopicExists (TopicID cfg)] in
      match topicExists w (TopicID cfg) with
      | Err err =>
          (calls ++ [CallCancel],
           Err ("failed to check topic existence: " +:+ err))
      | Ok true => ensureSubscription cfg w calls
      | Ok false =>
          let calls := calls ++ [CallCreateTopic (TopicID cfg)] in
          match createTopic w (TopicID cfg) with
          | Some err =>
              (calls ++ [CallCancel],
               Err ("failed to create topic: " +:+ err))
          | None => ensureSubscription cfg w calls
          end
      end
  end.

Definition isCancel (c : Call) : bool :=
  match c with
  | CallCancel => true
  | _ => false
  end.

Definition isCreate (c : Call) : bool :=
  match c with
  | CallCreateTopic _ | CallCreateSubscription _ _ => true
  | _ => false
  end.

End Setup.

(** ** More sample values *)

Module Examples2.
Import PubSub Receiver Setup.

Definition config0 : Config :=
  mkConfig "test-project" "test-topic" "test-sub" "" AckModeAck
    (Some (mkSubscriptionConfig 20000000000 0 (-1) "attributes.type = 'test'")).

(** A project in which nothing exists yet and every call succeeds. *)
Definition cloudEmpty : Cloud :=
  mkCloud (λ _ _, None) (λ _, Ok false) (λ _, None) (λ _, Ok false)
          (λ _ _, None).

(** A project whose topic cannot be created. *)
Definition cloudNoTopic : Cloud :=
  mkCloud (λ _ _, None) (λ _, Ok false) (λ _, Some "permission denied")
          (λ _, Ok false) (λ _ _, None).

End Examples2.

(** ** The claims' wording, for comparison with the code *)

Module Wire.

(** The JSON value of a parameter: integers as numbers, strings as
    strings, booleans as booleans; nothing for a value that has no JSON. *)
Definition jsonValue (v : Value) : option json :=
  match v with
  | VInt n => Some (JNumber n)
  | VUint64 n => Some (JNumber n)
  | VString s => Some (JString s)
  | VBool b => Some (JBool b)
  | VFunc => None
  end.

(** [ps] is the JSON of a parameter bag: [null] for no bag; otherwise an
    object with one field per entry of the bag, in the order of the keys,
    each key with the JSON value of its entry. *)
Definition encodesParams (params : option (gmap string Value)) (ps : json)
    : Prop :=
  match params with
  | None => ps = JNull
  | Some m =>
      ∃ fs, ps = JObject fs
        ∧ length fs = size m
        ∧ Sorted (λ p q : string * json, String.leb p.1 q.1 = true) fs
        ∧ map_Forall (λ _ v, is_Some (jsonValue v)) m
        ∧ ∀ k, TLC.field k ps = m !! k ≫= jsonValue
  end.

(** [o] is the event object of [e] on the wire:
    [{"Name": ..., "Params": {...}, "Reset": ...}], without [Node]. *)
Definition encodesEvent (e : Event) (o : json) : Prop :=
  ∃ ps, o = JObject [("Name", JString (Name e)); ("Params", ps);
                     ("Reset", JBool (Reset e))]
        ∧ encodesParams (Params e) ps.

End Wire.

Module Contract.
Import Raft.


End Contract.

(** * Properties *)

(** ** Event emission *)

Section RaftProps.
Import Raft Contract.

Lemma emitted_app (tr evs : EventTrace) : emitted tr (tr ++ evs) = evs.
Proof. unfold emitted. apply drop_app_length. Qed.

Lemma emitted_self (tr : EventTrace) : emitted tr tr = [].
Proof. unfold emitted. apply drop_all. Qed.

Lemma AddEvent_app (e : Event) (tr : EventTrace) : AddEvent e tr = tr ++ [e].
Proof. reflexivity. Qed.

(** C5: when the role diff of a node shows that its role changed and is now
    Leader, the step appends exactly two events to the trace, in this
    order: [BecomeLeader] for the node, then [ClientRequest] with request 0
    and the node as leader. *)
Theorem roleDiff_leader (id : Z) (old new : StateType) (oldTerm newTerm : Z)
    (tr : EventTrace) :
  old ≠ new → new = StateLeader →
  roleDiff id old new oldTerm newTerm tr
    = tr ++ [ mkEvent "BecomeLeader" id (Some {[ "node" := VUint64 id ]}) false;
              mkEvent "ClientRequest" id
                (Some {[ "request" := VInt 0; "leader" := VUint64 id ]}) false ]
  ∧ length (emitted tr (roleDiff id old new oldTerm newTerm tr)) = 2%nat.
Proof.
  intros Hne ->. unfold roleDiff.
  rewrite (bool_decide_eq_true_2 _ Hne), bool_decide_eq_true_2 by done.
  cbn [andb]. rewrite !AddEvent_app, <- app_assoc. cbn [app].
  split; [reflexivity|]. by rewrite emitted_app.
Qed.

Lemma roleDiff_leader_witness :
  StateCandidate ≠ StateLeader
  ∧ roleDiff 2 StateCandidate StateLeader 3 3 [Timeout 2]
    = [Timeout 2; BecomeLeader 2; ClientRequest 0 2].
Proof.
  split; [discriminate|].
  apply (roleDiff_leader 2 StateCandidate StateLeader 3 3 [Timeout 2]);
    [discriminate | reflexivity].
Defined.

(** The events the role diff adds, by the condition the code tests. *)
Lemma roleDiff_cases (id : Z) (old new : StateType) (oldTerm newTerm : Z)
    (tr : EventTrace) :
  emitted tr (roleDiff id old new oldTerm newTerm tr)
  = if bool_decide (old ≠ new ∧ new = StateLeader)
    then [BecomeLeader id; ClientRequest 0 id]
    else if bool_decide (codeTimeout old new oldTerm newTerm)
         then [Timeout id] else [].
Proof.
  unfold roleDiff, codeTimeout.
  destruct (Z.ltb_spec oldTerm newTerm); destruct old, new;
    repeat case_bool_decide; cbn;
    rewrite ?AddEvent_app, <- ?app_assoc, ?emitted_app, ?emitted_self;
    try reflexivity; exfalso; intuition (congruence || lia).
Qed.

(** Outside the library's contract the condition the code tests is wider
    than the specification's: a diff from Leader to Candidate at an
    unchanged term would get a [Timeout]. *)
Lemma timeout_spec_counterexample :
  emitted [] (roleDiff 1 StateLeader StateCandidate 1 1 []) = [Timeout 1]
  ∧ ¬ specTimeout StateLeader StateCandidate 1 1
  ∧ ¬ specTimeoutNarrow StateLeader StateCandidate 1 1.
Proof.
  split; [reflexivity|].
  unfold specTimeout, specTimeoutNarrow. split; intros H; intuition (congruence || lia).
Qed.

(** A step emits [Timeout] for a node if and only if the node's new role
    is Candidate and either its old role was another one or its term is
    strictly greater; it then emits it once. *)
Lemma timeout_iff (id : Z) (old new : StateType) (oldTerm newTerm : Z)
    (tr : EventTrace) :
  (Timeout id ∈ emitted tr (roleDiff id old new oldTerm newTerm tr)
   ↔ codeTimeout old new oldTerm newTerm)
  ∧ countName "Timeout" (emitted tr (roleDiff id old new oldTerm newTerm tr))
    = (if bool_decide (codeTimeout old new oldTerm newTerm) then 1 else 0)%nat.
Proof.
  rewrite roleDiff_cases.
  case_bool_decide as HL.
  - assert (¬ codeTimeout old new oldTerm newTerm) as Hn
      by (unfold codeTimeout; destruct HL; intros [? _]; congruence).
    rewrite (bool_decide_eq_false_2 _ Hn). split; [|reflexivity].
    split; [|done]. intros Hin.
    apply elem_of_cons in Hin as [Hin|Hin]; [discriminate|].
    apply elem_of_cons in Hin as [Hin|Hin]; [discriminate|].
    by apply elem_of_nil in Hin.
  - case_bool_decide as HT.
    + split; [|reflexivity]. split; [done|]. intros _. apply list_elem_of_here.
    + split; [|reflexivity]. split; [|done]. intros Hin. by apply elem_of_nil in Hin.
Qed.




Lemma countName_app (name : string) (tr evs : EventTrace) :
  countName name (tr ++ evs) = (countName name tr + countName name evs)%nat.
Proof. unfold countName. by rewrite filter_app, length_app. Qed.

(** C7: a ready batch appends the [AdvanceCommitIndex] event of its node
    (the node as [Node], and as [i] the node's id converted to [int]) to
    the trace exactly once if it holds at least one committed entry,
    however many, and leaves the trace as it is if it holds none. *)
Theorem commitDiff_once {Entry : Type} (id : Z) (ready : Ready Entry)
    (tr : EventTrace) :
  commitDiff id ready tr
    = tr ++ (if bool_decide (CommittedEntries ready = []) then []
             else [mkEvent "AdvanceCommitIndex" id
                     (Some {[ "i" := VInt ((id + 2 ^ 63) `mod` 2 ^ 64
                                           - 2 ^ 63) ]}) false])
  ∧ (0 ≤ id < 2 ^ 63 → CommittedEntries ready ≠ [] →
     commitDiff id ready tr
     = tr ++ [mkEvent "AdvanceCommitIndex" id (Some {[ "i" := VInt id ]})
                      false])
  ∧ (CommittedEntries ready = [] → commitDiff id ready tr = tr)
  ∧ countName "AdvanceCommitIndex" (commitDiff id ready tr)
    = (countName "AdvanceCommitIndex" tr
       + if bool_decide (CommittedEntries ready = []) then 0 else 1)%nat
  ∧ emitted tr (commitDiff id ready tr)
    = (if bool_decide (CommittedEntries ready = []) then []
       else [AdvanceCommitIndex id])
  ∧ countName "AdvanceCommitIndex" (emitted tr (commitDiff id ready tr))
    = (if bool_decide (CommittedEntries ready = []) then 0 else 1)%nat.
Proof.
  assert (commitDiff id ready tr
          = tr ++ (if bool_decide (CommittedEntries ready = []) then []
                   else [AdvanceCommitIndex id])) as Heq.
  { unfold commitDiff. destruct (CommittedEntries ready) as [|e es]; cbn [length].
    - rewrite bool_decide_eq_true_2 by done. cbn. by rewrite app_nil_r.
    - rewrite bool_decide_eq_false_2 by done.
      replace (0 <? Z.of_nat (S (length es))) with true
        by (symmetry; apply Z.ltb_lt; lia).
      reflexivity. }
  rewrite Heq, emitted_app, countName_app.
  split; [reflexivity|]. split; [|split; [|split; [|split]]].
  - intros Hid Hne. rewrite bool_decide_eq_false_2 by done.
    unfold AdvanceCommitIndex, int_of_uint64, int64_wrap.
    rewrite Z.mod_small by lia.
    replace (id + 2 ^ 63 - 2 ^ 63) with id by lia. reflexivity.
  - intros ->. rewrite bool_decide_eq_true_2 by done. by rewrite app_nil_r.
  - by case_bool_decide.
  - reflexivity.
  - by case_bool_decide.
Qed.

Lemma commitDiff_once_witness :
  0 ≤ 2 < 2 ^ 63
  ∧ CommittedEntries (mkReady [tt; tt; tt]) ≠ []
  ∧ commitDiff 2 (mkReady [tt; tt; tt]) [BecomeLeader 2]
    = [BecomeLeader 2;
       mkEvent "AdvanceCommitIndex" 2 (Some {[ "i" := VInt 2 ]}) false]
  ∧ commitDiff 2 (mkReady ([] : list unit)) [BecomeLeader 2]
    = [BecomeLeader 2].
Proof.
  assert (0 ≤ 2 < 2 ^ 63) as Hid by lia.
  assert (CommittedEntries (mkReady [tt; tt; tt]) ≠ []) as Hne by discriminate.
  split; [exact Hid|]. split; [exact Hne|].
  destruct (commitDiff_once 2 (mkReady [tt; tt; tt]) [BecomeLeader 2])
    as (_ & Hsome & _).
  destruct (commitDiff_once 2 (mkReady ([] : list unit)) [BecomeLeader 2])
    as (_ & _ & Hnone & _).
  split; [exact (Hsome Hid Hne) | exact (Hnone eq_refl)].
Defined.

End RaftProps.

(** ** The TLC client *)

Section TLCProps.
Import TLC Wire.

Lemma bindR_Ok {A B : Type} (r : result A) (k : A → result B) (b : B) :
  bindR r k = Ok b → ∃ a, r = Ok a ∧ k a = Ok b.
Proof. destruct r as [a|e]; cbn; [eauto | discriminate]. Qed.

Lemma mapR_Ok {A B : Type} (f : A → result B) (l : list A) (ys : list B) :
  mapR f l = Ok ys → Forall2 (λ x y, f x = Ok y) l ys.
Proof.
  revert ys. induction l as [|x l IH]; intros ys; cbn.
  - intros [= <-]. constructor.
  - intros (y & Hy & H)%bindR_Ok. apply bindR_Ok in H as (ys' & Hys & [= <-]).
    constructor; auto.
Qed.

Lemma marshalEvent_fields (e : Event) (o : json) :
  marshalEvent e = Ok o →
  ∃ ps, marshalParams (Params e) = Ok ps
        ∧ o = JObject [("Name", JString (Name e)); ("Params", ps);
                       ("Reset", JBool (Reset e))].
Proof.
  unfold marshalEvent. intros (ps & Hps & [= <-])%bindR_Ok. eauto.
Qed.

Lemma marshalEvent_no_Node (e : Event) (o : json) :
  marshalEvent e = Ok o →
  field "Node" o = None ∧ field "Reset" o = Some (JBool (Reset e)).
Proof. intros (ps & _ & ->)%marshalEvent_fields. split; reflexivity. Qed.

Lemma SendTrace_requests (c : TLCClient) (srv : Server) (trace : EventTrace)
    (req : Request) :
  req ∈ (SendTrace c srv trace).1.2 →
  marshalTrace (trace ++ [sentinel]) = Ok (body req)
  ∧ url req = "http://" +:+ ClientAddr c +:+ "/execute"
  ∧ contentType req = "application/json".
Proof.
  unfold SendTrace. destruct (marshalTrace (trace ++ [sentinel])) as [data|e].
  - destruct (httpPost srv _); cbn; intros ->%list_elem_of_singleton; done.
  - cbn. intros H. by apply elem_of_nil in H.
Qed.

Example marshalEvent_Timeout :
  marshalEvent (Raft.Timeout 1)
  = Ok (JObject [("Name", JString "Timeout");
                 ("Params", JObject [("node", JNumber 1)]);
                 ("Reset", JBool false)]).
Proof. vm_compute. reflexivity. Qed.

Example marshalEvent_ClientRequest :
  marshalEvent (Raft.ClientRequest 0 3)
  = Ok (JObject [("Name", JString "ClientRequest");
                 ("Params", JObject [("leader", JNumber 3);
                                     ("request", JNumber 0)]);
                 ("Reset", JBool false)]).
Proof. vm_compute. reflexivity. Qed.

Example marshalEvent_unsupported :
  marshalEvent (mkEvent "Odd" 1 (Some {[ "f" := VFunc ]}) false)
  = Err unsupportedType.
Proof. vm_compute. reflexivity. Qed.

Example SendTrace_unsupported :
  SendTrace (mkTLCClient "127.0.0.1:2023") Examples.srvUp
            [mkEvent "Odd" 1 (Some {[ "f" := VFunc ]}) false]
  = ([mkEvent "Odd" 1 (Some {[ "f" := VFunc ]}) false; sentinel], [],
     Err "error marshalling json: json: unsupported type: func()").
Proof. vm_compute. reflexivity. Qed.

Lemma mapR_marshalField (l : list (string * Value))
    (fs : list (string * json)) :
  mapR marshalField l = Ok fs →
  Forall (λ p, is_Some (jsonValue p.2)) l
  ∧ Forall2 (λ p q, q.1 = p.1 ∧ jsonValue p.2 = Some q.2) l fs.
Proof.
  intros Hfs%mapR_Ok. induction Hfs as [|[k v] q l fs Hq _ [IH1 IH2]].
  - split; constructor.
  - unfold marshalField in Hq. cbn in Hq.
    destruct v; cbn in Hq; try discriminate; injection Hq as <-;
      (split; constructor; [cbn; eauto | done | done | done]).
Qed.

(** Looking a key up in the fields written for a list of entries gives
    the JSON value of the first entry with that key. *)
Lemma field_entries (l : list (string * Value)) (fs : list (string * json))
    (k : string) :
  Forall2 (λ p q, q.1 = p.1 ∧ jsonValue p.2 = Some q.2) l fs →
  field k (JObject fs) = (list_to_map l : gmap string Value) !! k ≫= jsonValue.
Proof.
  induction 1 as [|[k' v] [k'' j] l fs [Hk Hj] _ IH]; cbn in *.
  - by rewrite lookup_empty.
  - subst k''. case_bool_decide as Hkk.
    + subst k'. rewrite lookup_insert_eq. cbn. by rewrite Hj.
    + rewrite lookup_insert_ne by done. exact IH.
Qed.

#[local] Instance keyLe_total : Total keyLe.
Proof. intros p q. unfold keyLe. apply String.leb_total. Qed.

Lemma marshalParams_encodes (params : option (gmap string Value))
    (ps : json) :
  marshalParams params = Ok ps → encodesParams params ps.
Proof.
  destruct params as [m|]; cbn; [|by intros [= <-]].
  intros (fs & Hfs & [= <-])%bindR_Ok.
  apply mapR_marshalField in Hfs as [Hall Hfs]. exists fs.
  split; [reflexivity|]. split; [|split; [|split]].
  - rewrite <- (Forall2_length _ _ _ Hfs), merge_sort_Permutation.
    apply length_map_to_list.
  - pose proof (Sorted_merge_sort keyLe (map_to_list m)) as Hsorted.
    revert Hsorted Hfs. generalize (merge_sort keyLe (map_to_list m)).
    intros l Hsorted Hfs. induction Hfs as [|p q l fs [Hk _] Hfs IH];
      [constructor|].
    apply Sorted_inv in Hsorted as [Hsorted Hhd]. constructor; [by apply IH|].
    destruct Hfs as [|p' q' l fs [Hk' _] _]; constructor.
    apply HdRel_inv in Hhd. unfold keyLe in Hhd. by rewrite Hk, Hk'.
  - rewrite merge_sort_Permutation in Hall.
    apply map_Forall_to_list. eapply Forall_impl; [exact Hall|].
    by intros [k v].
  - intros k. rewrite (field_entries _ _ k Hfs).
    rewrite (list_to_map_proper _ (map_to_list m)).
    + by rewrite list_to_map_to_list.
    + rewrite merge_sort_Permutation. apply NoDup_fst_map_to_list.
    + apply merge_sort_Permutation.
Qed.

Lemma marshalEvent_encodes (e : Event) (o : json) :
  marshalEvent e = Ok o → encodesEvent e o.
Proof.
  intros (ps & Hps & ->)%marshalEvent_fields. exists ps.
  split; [reflexivity|]. by apply marshalParams_encodes.
Qed.

(** C4: every request [SendTrace] posts carries as its body the JSON
    serialization of the event array with the sentinel appended: a JSON
    array with, for each event of the trace and in the order of the trace,
    the object of its [Name], its [Params] (every key with its value) and
    its [Reset], followed by a final object whose [Reset] is [true]; no
    object has a [Node] field. *)
Theorem SendTrace_body (c : TLCClient) (srv : Server) (trace : EventTrace)
    (req : Request) :
  req ∈ (SendTrace c srv trace).1.2 →
  ∃ objs final,
    body req = JArray (objs ++ [final])
    ∧ Forall2
        (λ e o,
           ∃ ps, o = JObject [("Name", JString (Name e)); ("Params", ps);
                              ("Reset", JBool (Reset e))]
                 ∧ encodesParams (Params e) ps)
        trace objs
    ∧ final = JObject [("Name", JString ""); ("Params", JNull);
                       ("Reset", JBool true)]
    ∧ field "Reset" final = Some (JBool true)
    ∧ Forall (λ o, field "Node" o = None) (objs ++ [final])
    ∧ marshalTrace (trace ++ [mkEvent "" 0 None true]) = Ok (body req)
    ∧ Forall2 (λ e o, marshalEvent e = Ok o) trace objs.
Proof.
  intros (Hm & _)%SendTrace_requests. fold sentinel.
  pose proof Hm as Hm'. unfold marshalTrace in Hm'.
  apply bindR_Ok in Hm' as (es & Hes & [= Hb]).
  apply mapR_Ok in Hes.
  apply Forall2_app_inv_l in Hes as (objs & fin & Hobjs & Hfin & ->).
  apply Forall2_cons_inv_l in Hfin as (final & rest & Hf & Hnil & ->).
  apply Forall2_nil_inv_l in Hnil as ->.
  exists objs, final. split; [done|].
  split; [eapply Forall2_impl; [exact Hobjs | apply marshalEvent_encodes]|].
  assert (final = JObject [("Name", JString ""); ("Params", JNull);
                           ("Reset", JBool true)]) as Hfinal.
  { cbn in Hf. by injection Hf as <-. }
  split; [done|]. split; [by rewrite Hfinal|].
  split; [|split; [done | done]].
  apply Forall_app. split.
  - clear -Hobjs. induction Hobjs as [|e o tr os He _ IH]; constructor; [|done].
    by apply marshalEvent_no_Node in He as [? _].
  - constructor; [by rewrite Hfinal | constructor].
Qed.

Lemma SendTrace_body_witness :
  ∃ req, req ∈ (SendTrace (mkTLCClient "127.0.0.1:2023") Examples.srvUp
                          Examples.events0).1.2
         ∧ body req
           = JArray
               [JObject [("Name", JString "Timeout");
                         ("Params", JObject [("node", JNumber 1)]);
                         ("Reset", JBool false)];
                JObject [("Name", JString "BecomeLeader");
                         ("Params", JObject [("node", JNumber 1)]);
                         ("Reset", JBool false)];
                JObject [("Name", JString "ClientRequest");
                         ("Params", JObject [("leader", JNumber 1);
                                             ("request", JNumber 0)]);
                         ("Reset", JBool false)];
                JObject [("Name", JString ""); ("Params", JNull);
                         ("Reset", JBool true)]]
         ∧ ∃ objs final,
             body req = JArray (objs ++ [final])
             ∧ Forall2 encodesEvent Examples.events0 objs
             ∧ field "Reset" final = Some (JBool true)
             ∧ Forall (λ o, field "Node" o = None) (objs ++ [final]).
Proof.
  eexists. split; [apply list_elem_of_here|]. split; [vm_compute; reflexivity|].
  destruct (SendTrace_body (mkTLCClient "127.0.0.1:2023") Examples.srvUp
              Examples.events0 _ (list_elem_of_here _ _))
    as (objs & final & Hb & Henc & _ & HR & HN & _).
  exists objs, final. auto.
Defined.

End TLCProps.

(** ** The guider *)

Section GuiderProps.
Import TLC Guider.

Lemma go_max_Zmax (a b : Z) : go_max a b = Z.max a b.
Proof. unfold go_max. destruct (Z.ltb_spec a b); lia. Qed.

(** The loop over the returned states inserts every key and counts the
    keys that were not in the map. *)
Lemma foldl_visit (l : list State) (m : gmap Z bool) (n : Z) :
  dom (foldl visit (m, n) l).1 = dom m ∪ list_to_set (Key <$> l)
  ∧ (foldl visit (m, n) l).2
    = n + Z.of_nat (size (list_to_set (Key <$> l) ∖ dom m : gset Z)).
Proof.
  revert m n. induction l as [|s l IH]; intros m n; cbn [foldl fmap list_fmap list_to_set].
  - split; [set_solver|]. cbn.
    replace (∅ ∖ dom m : gset Z) with (∅ : gset Z) by set_solver.
    rewrite size_empty. lia.
  - unfold visit at 2 4. cbn [fst snd].
    destruct (m !! Key s) as [b|] eqn:Hk.
    + assert (Key s ∈ dom m) by (apply elem_of_dom; eauto).
      destruct (IH m n) as [-> ->]. split; [set_solver|].
      do 2 f_equal. f_equal. set_solver.
    + assert (Key s ∉ dom m) by (by apply not_elem_of_dom).
      destruct (IH (<[Key s:=true]> m) (n + 1)) as [-> ->].
      rewrite dom_insert_L. split; [set_solver|].
      replace (({[Key s]} ∪ list_to_set (Key <$> l)) ∖ dom m : gset Z)
        with ({[Key s]} ∪ list_to_set (Key <$> l) ∖ ({[Key s]} ∪ dom m) : gset Z).
      * rewrite (size_union {[Key s]}
                   (list_to_set (Key <$> l) ∖ ({[Key s]} ∪ dom m)))
          by set_solver.
        rewrite size_singleton. lia.
      * apply set_eq. intros x. destruct (decide (x = Key s)); set_solver.
Qed.

(** The keys of a list without duplicates that are outside a set. *)
Lemma size_difference_list (l : list Z) (X : gset Z) :
  NoDup l →
  size (list_to_set l ∖ X : gset Z) = length (filter (λ k, k ∉ X) l).
Proof.
  intros Hnd.
  replace (list_to_set l ∖ X : gset Z)
    with (list_to_set (filter (λ k, k ∉ X) l) : gset Z).
  - apply size_list_to_set. by apply NoDup_filter.
  - apply set_eq. intros x.
    rewrite elem_of_difference, !elem_of_list_to_set, list_elem_of_filter.
    tauto.
Qed.

Example float64_div_third :
  float64_div (float64_of_int 1) (float64_of_int 3)
  = S754_finite false 6004799503160661 (-54).
Proof. vm_compute. reflexivity. Qed.

Example Check_srvUp :
  (Check Examples.srvUp Examples.guider0 Examples.trace0 Examples.events0).2
  = Returned (1, S754_finite false 4503599627370496 (-52))
  ∧ states (after (Check Examples.srvUp Examples.guider0 Examples.trace0
                         Examples.events0))
    = {[ 11; 12 ]}.
Proof. split; vm_compute; reflexivity. Qed.

Example Check_srvDown :
  (Check Examples.srvDown Examples.guider0 Examples.trace0 Examples.events0).2
  = Panicked "error connecting to tlc: error sending trace to tlc: connection refused"
  ∧ after (Check Examples.srvDown Examples.guider0 Examples.trace0
                 Examples.events0)
    = Examples.guider0.
Proof. split; vm_compute; reflexivity. Qed.

(** C1: when the call of the model server succeeds, [Check] returns; the
    count it returns is the number of returned keys that were not in the
    state set before the call, every returned key is in the state set
    afterwards, and the gain is the [float64] quotient of the count by the
    larger of 1 and the size the state set had before the call. *)
Theorem Check_new_states (srv : Server) (t : TLCStateGuider) (trace : Trace)
    (eventTrace eventTrace' : EventTrace) (reqs : list Request)
    (tlcStates : list State) :
  SendTrace (tlcClient t) srv eventTrace = (eventTrace', reqs, Ok tlcStates) →
  ∃ t' numNewStates gain,
    Check srv t trace eventTrace
      = (t', eventTrace', reqs, Returned (numNewStates, gain))
    ∧ numNewStates
      = Z.of_nat (size (list_to_set (Key <$> tlcStates) ∖ states t : gset Z))
    ∧ states t' = states t ∪ list_to_set (Key <$> tlcStates)
    ∧ Z.of_nat (size (states t')) = Z.of_nat (size (states t)) + numNewStates
    ∧ gain = float64_div (float64_of_int numNewStates)
               (float64_of_int (Z.max (Z.of_nat (size (states t))) 1))
    ∧ (NoDup (Key <$> tlcStates) →
       numNewStates
       = Z.of_nat (length (filter (λ k, k ∉ states t) (Key <$> tlcStates)))).
Proof.
  intros HS. unfold Check. rewrite HS. cbn [recordTrace statesMap tlcClient records].
  destruct (foldl_visit tlcStates (statesMap t) 0) as [Hdom Hn].
  eexists _, _, _. split; [reflexivity|]. unfold states. cbn [statesMap].
  rewrite Hn, Hdom. split; [lia|]. split; [done|].
  split; [|split; [|intros Hnd; rewrite size_difference_list by done; lia]].
  - replace (dom (statesMap t) ∪ list_to_set (Key <$> tlcStates) : gset Z)
      with (dom (statesMap t) ∪ list_to_set (Key <$> tlcStates) ∖ dom (statesMap t) : gset Z).
    + rewrite (size_union (dom (statesMap t))
                 (list_to_set (Key <$> tlcStates) ∖ dom (statesMap t)))
        by set_solver.
      lia.
    + apply set_eq. intros x. destruct (decide (x ∈ dom (statesMap t))); set_solver.
  - by rewrite go_max_Zmax, size_dom.
Qed.

Lemma Check_states_subseteq (srv : Server) (t : TLCStateGuider)
    (trace : Trace) (eventTrace : EventTrace) :
  states t ⊆ states (after (Check srv t trace eventTrace)).
Proof.
  destruct (SendTrace (tlcClient t) srv eventTrace) as [[ev' reqs] [sts|e]] eqn:HS.
  - unfold after, Check. rewrite HS. cbn [fst]. unfold states. cbn [statesMap recordTrace].
    destruct (foldl_visit sts (statesMap t) 0) as [-> _]. set_solver.
  - unfold after, Check. by rewrite HS.
Qed.

(** C2: the guider's state set only grows: after any number of operations
    of a campaign on the guider it contains the set it was, so its size
    does not decrease. *)
Theorem states_monotone (t t' : TLCStateGuider) :
  steps t t' →
  states t ⊆ states t' ∧ (size (states t) ≤ size (states t'))%nat.
Proof.
  intros Hsteps.
  assert (states t ⊆ states t') as Hsub.
  { induction Hsteps as [t|t1 t2 t3 Hstep _ IH]; [done|].
    etrans; [|exact IH]. destruct Hstep. apply Check_states_subseteq. }
  split; [done|]. by apply subseteq_size.
Qed.

Lemma Check_panics_on_error (srv : Server) (t : TLCStateGuider)
    (trace : Trace) (eventTrace : EventTrace) (err : string) :
  (SendTrace (tlcClient t) srv eventTrace).2 = Err err →
  Check srv t trace eventTrace
  = (t, eventTrace ++ [sentinel], (SendTrace (tlcClient t) srv eventTrace).1.2,
     Panicked ("error connecting to tlc: " +:+ err)).
Proof.
  unfold Check.
  assert ((SendTrace (tlcClient t) srv eventTrace).1.1 = eventTrace ++ [sentinel]) as Htr.
  { unfold SendTrace. destruct (marshalTrace _); [destruct (httpPost _ _)|]; done. }
  destruct (SendTrace (tlcClient t) srv eventTrace) as [[ev' reqs] [sts|e]];
    cbn in *; [discriminate|]. intros [= ->]. by rewrite Htr.
Qed.

Lemma transportFailure_SendTrace (c : TLCClient) (srv : Server)
    (eventTrace : EventTrace) :
  transportFailure c srv eventTrace →
  ∃ err, (SendTrace c srv eventTrace).2 = Err err.
Proof.
  intros (data & Hdata & Hfail). unfold SendTrace. rewrite Hdata.
  destruct Hfail as [[e He]|(res & e & Hres & He)].
  - rewrite He. eauto.
  - rewrite Hres. cbn. eauto.
Qed.

(** C3: when the client cannot reach the server, or cannot process its
    reply, [Check] does not return: it panics with the client's error, and
    the state set is left as it was; no (0, 0) comes back. *)
Theorem Check_transport_error (srv : Server) (t : TLCStateGuider)
    (trace : Trace) (eventTrace : EventTrace) :
  transportFailure (tlcClient t) srv eventTrace →
  ∃ err,
    (SendTrace (tlcClient t) srv eventTrace).2 = Err err
    ∧ (Check srv t trace eventTrace).2
      = Panicked ("error connecting to tlc: " +:+ err)
    ∧ after (Check srv t trace eventTrace) = t
    ∧ ∀ r, (Check srv t trace eventTrace).2 ≠ Returned r.
Proof.
  intros (err & Herr)%transportFailure_SendTrace. exists err.
  rewrite (Check_panics_on_error _ _ _ _ _ Herr). unfold after. cbn.
  repeat split; done.
Qed.

Lemma Check_new_states_witness :
  SendTrace (tlcClient Examples.guider0) Examples.srvUp Examples.events0
  = (Examples.events0 ++ [sentinel],
     (SendTrace (tlcClient Examples.guider0) Examples.srvUp Examples.events0).1.2,
     Ok [mkState "s0" 11; mkState "s1" 12; mkState "s1" 12])
  ∧ ∃ t' numNewStates gain,
      Check Examples.srvUp Examples.guider0 Examples.trace0 Examples.events0
      = (t', Examples.events0 ++ [sentinel],
         (SendTrace (tlcClient Examples.guider0) Examples.srvUp Examples.events0).1.2,
         Returned (numNewStates, gain))
      ∧ numNewStates
        = Z.of_nat (size (list_to_set (Key <$> [mkState "s0" 11; mkState "s1" 12;
                                                 mkState "s1" 12])
                          ∖ states Examples.guider0 : gset Z)).
Proof.
  split; [vm_compute; reflexivity|].
  destruct (Check_new_states Examples.srvUp Examples.guider0 Examples.trace0
              Examples.events0 _ _ _ ltac:(vm_compute; reflexivity))
    as (t' & n & g & HC & Hn & _).
  exists t', n, g. split; [exact HC | exact Hn].
Defined.

Lemma states_monotone_witness :
  steps Examples.guider0
        (after (Check Examples.srvUp Examples.guider0 Examples.trace0
                      Examples.events0))
  ∧ states Examples.guider0
    ⊆ states (after (Check Examples.srvUp Examples.guider0 Examples.trace0
                           Examples.events0)).
Proof.
  assert (steps Examples.guider0
            (after (Check Examples.srvUp Examples.guider0 Examples.trace0
                          Examples.events0))) as Hs
    by (eapply steps_cons; [apply step_Check | apply steps_refl]).
  split; [exact Hs|]. exact (proj1 (states_monotone _ _ Hs)).
Defined.

Lemma Check_transport_error_witness :
  transportFailure (tlcClient Examples.guider0) Examples.srvDown Examples.events0
  ∧ ∃ err, (Check Examples.srvDown Examples.guider0 Examples.trace0
                  Examples.events0).2
           = Panicked ("error connecting to tlc: " +:+ err).
Proof.
  assert (transportFailure (tlcClient Examples.guider0) Examples.srvDown
            Examples.events0) as Hf.
  { eexists. split; [vm_compute; reflexivity|]. left. eexists. reflexivity. }
  split; [exact Hf|].
  destruct (Check_transport_error Examples.srvDown Examples.guider0
              Examples.trace0 Examples.events0 Hf) as (err & _ & HP & _).
  exists err. exact HP.
Defined.

End GuiderProps.

(** ** The fuzzer's mutation loop *)

Section FuzzerProps.
Import TLC Guider Fuzzer.
Context {M : Type} `{Mutator M}.
Variable defaultCopyFilter : SchedulingChoice → bool.

Lemma int64_wrap_id (z : Z) : 0 ≤ z < 2 ^ 63 → int64_wrap z = z.
Proof.
  intros Hz. unfold int64_wrap.
  rewrite Z.mod_small by lia. lia.
Qed.

(** [n] rounds call [Mutate] [n] times, on the same two traces, and push
    the copies of the successful children behind the queue. *)
Lemma mutateLoop_spec (n : nat) (trace : Trace) (eventTrace : EventTrace)
    (f : Fuzzer M) :
  length (mutateLoop defaultCopyFilter n trace eventTrace f).2 = n
  ∧ Forall (λ r, ∃ m, r = (Mutate m trace eventTrace).2)
           (mutateLoop defaultCopyFilter n trace eventTrace f).2
  ∧ mutatedTracesQueue (mutateLoop defaultCopyFilter n trace eventTrace f).1
    = mutatedTracesQueue f
      ++ children defaultCopyFilter
           (mutateLoop defaultCopyFilter n trace eventTrace f).2.
Proof.
  revert f. induction n as [|n IH]; intros f; cbn [mutateLoop fst snd].
  - split; [done|]. split; [constructor|]. unfold children. cbn.
    by rewrite app_nil_r.
  - match goal with |- context [mutateLoop _ n _ _ ?g] =>
      destruct (IH g) as (Hlen & Hall & Hq) end.
    split; [cbn; by rewrite Hlen|]. split; [constructor; eauto|].
    rewrite Hq. cbn [mutatedTracesQueue]. unfold children, Push.
    destruct (Mutate (mutator f) trace eventTrace) as [m' [new ok]].
    cbn [fst snd]. destruct ok; cbn [List.filter snd fmap list_fmap fst].
    + by rewrite <- app_assoc.
    + reflexivity.
Qed.

(** C8: when the guider's check returns [new], the driver calls the
    mutator [new * M] times if [new > 0], each time on the trace and the
    event trace of the iteration, and pushes the copy, under the default
    copy filter, of every child returned with [ok] onto the queue, in the
    order of the calls; with [new = 0] the mutator is not called and the
    queue is left as it was.  [M] is a count, and [new * M] fits an [int]. *)
Theorem scoreAndMutate_enqueues (srv : Server) (g g' : TLCStateGuider)
    (f : Fuzzer M) (trace : Trace) (eventTrace eventTrace' : EventTrace)
    (reqs : list Request) (new : Z) (gain : float64) :
  Check srv g trace eventTrace = (g', eventTrace', reqs, Returned (new, gain)) →
  0 ≤ MutPerTrace f →
  new * MutPerTrace f < 2 ^ 63 →
  ∃ f' calls,
    scoreAndMutate defaultCopyFilter srv g f trace eventTrace
      = Returned (g', f', calls)
    ∧ Forall (λ r, ∃ m, r = (Mutate m trace eventTrace').2) calls
    ∧ (0 < new → Z.of_nat (length calls) = new * MutPerTrace f)
    ∧ (new = 0 → calls = [] ∧ mutatedTracesQueue f' = mutatedTracesQueue f)
    ∧ mutatedTracesQueue f'
      = mutatedTracesQueue f
        ++ ((λ r, copyTrace r.1 defaultCopyFilter) <$> List.filter snd calls).
Proof.
  intros HC HM Hfit. unfold scoreAndMutate. rewrite HC.
  eexists _, _. split; [reflexivity|]. unfold mutateNew.
  destruct (Z.ltb_spec 0 new) as [Hpos|Hle].
  - rewrite int64_wrap_id by nia.
    destruct (mutateLoop_spec (Z.to_nat (new * MutPerTrace f)) trace
                eventTrace' f) as (Hlen & Hall & Hq).
    split; [exact Hall|]. split; [intros _; rewrite Hlen; nia|].
    split; [lia|]. exact Hq.
  - cbn [fst snd]. split; [constructor|]. split; [lia|].
    split; [done|]. cbn. by rewrite app_nil_r.
Qed.

End FuzzerProps.

Example scoreAndMutate_srvUp :
  ∃ g',
    Fuzzer.scoreAndMutate Examples.keepAll Examples.srvUp Examples.guider0
      Examples.fuzzer0 Examples.trace0 Examples.events0
    = Returned (g', Fuzzer.mkFuzzer tt 2 [Examples.trace0; Examples.trace0],
                [(Examples.trace0, true); (Examples.trace0, true)]).
Proof. eexists. vm_compute. reflexivity. Qed.

Lemma scoreAndMutate_enqueues_witness :
  0 ≤ Fuzzer.MutPerTrace Examples.fuzzer0
  ∧ ∃ g' f' calls,
      Fuzzer.scoreAndMutate Examples.keepAll Examples.srvUp Examples.guider0
        Examples.fuzzer0 Examples.trace0 Examples.events0
      = Returned (g', f', calls)
      ∧ (0 < 1 → Z.of_nat (length calls) = 1 * Fuzzer.MutPerTrace Examples.fuzzer0).
Proof.
  split; [vm_compute; discriminate|].
  destruct (scoreAndMutate_enqueues Examples.keepAll Examples.srvUp
              Examples.guider0
              (Guider.after (Guider.Check Examples.srvUp Examples.guider0
                               Examples.trace0 Examples.events0))
              Examples.fuzzer0 Examples.trace0 Examples.events0
              (Examples.events0 ++ [TLC.sentinel])
              (TLC.SendTrace (Guider.tlcClient Examples.guider0) Examples.srvUp
                 Examples.events0).1.2
              1 (float64_div (float64_of_int 1) (float64_of_int 1)))
    as (f' & calls & HS & _ & Hn & _);
    [vm_compute; reflexivity | vm_compute; discriminate | vm_compute; reflexivity |].
  eexists _, f', calls. split; [exact HS | exact Hn].
Defined.

(** ** The Pub/Sub client *)

Section PubSubProps.
Import PubSub.

Lemma foldl_BufferMessage (c : PubSubClient) (msgs : list Message) :
  foldl BufferMessage c msgs = withBuffer c (messageBuffer c ++ msgs).
Proof.
  revert c. induction msgs as [|m msgs IH]; intros c; cbn [foldl].
  - rewrite app_nil_r. by destruct c.
  - rewrite IH. unfold BufferMessage, withBuffer. cbn.
    by rewrite <- app_assoc.
Qed.

Lemma receiveN_buffer (c : PubSubClient) (buf : list Message) (timeout : Z)
    (sel : Selected) :
  receiveN (length buf) (withBuffer c buf) timeout sel
  = (withBuffer c [], (λ m, ([], Ok m)) <$> buf).
Proof.
  induction buf as [|m buf IH]; cbn [receiveN length]; [done|].
  assert (ReceiveMessage (withBuffer c (m :: buf)) timeout sel
          = (withBuffer c buf, [], Ok m)) as -> by reflexivity.
  cbn [fst snd]. by rewrite IH.
Qed.

Example ReceiveMessage_empty_buffer :
  ReceiveMessage (withBuffer Examples.client0 []) 1000
                 (FromMessageChan (Some Examples.world) true)
  = (mkClient [] (WithCancel Background) AckModeAck true true,
     [StartReceiver; Wait (WithTimeout (WithCancel Background) 1000);
      Ack Examples.world],
     Ok Examples.world).
Proof. reflexivity. Qed.

(** C9: with a message in the buffer, [ReceiveMessage] returns the oldest
    buffered message and removes it, leaves the rest of the client as it
    was (the receiver is not started) and has no effect outside: it does
    not wait and neither acks nor nacks.  Messages added by
    [BufferMessage] come out after the ones buffered before them, in the
    order they were added. *)
Theorem ReceiveMessage_buffered (c : PubSubClient) (timeout : Z)
    (sel : Selected) (msg : Message) (rest msgs : list Message) :
  messageBuffer c = msg :: rest →
  ReceiveMessage c timeout sel = (withBuffer c rest, [], Ok msg)
  ∧ receiverStarted (ReceiveMessage c timeout sel).1.1 = receiverStarted c
  ∧ receiverOnce (ReceiveMessage c timeout sel).1.1 = receiverOnce c
  ∧ messageBuffer (foldl BufferMessage c msgs) = msg :: rest ++ msgs
  ∧ receiveN (length (msg :: rest ++ msgs)) (foldl BufferMessage c msgs)
             timeout sel
    = (withBuffer c [], (λ m, ([], Ok m)) <$> (msg :: rest ++ msgs)).
Proof.
  intros Hbuf.
  assert (ReceiveMessage c timeout sel = (withBuffer c rest, [], Ok msg)) as HR
    by (unfold ReceiveMessage; by rewrite Hbuf).
  split; [exact HR|]. rewrite HR. split; [done|]. split; [done|].
  rewrite foldl_BufferMessage, Hbuf. split; [done|].
  apply (receiveN_buffer c (msg :: rest ++ msgs)).
Qed.

Lemma ReceiveMessage_buffered_witness :
  messageBuffer Examples.client0 = [Examples.hello]
  ∧ ReceiveMessage Examples.client0 1000 (CtxDone DeadlineExceeded)
    = (withBuffer Examples.client0 [], [], Ok Examples.hello)
  ∧ receiveN 2 (BufferMessage Examples.client0 Examples.world) 1000
             (CtxDone DeadlineExceeded)
    = (withBuffer Examples.client0 [],
       [([], Ok Examples.hello); ([], Ok Examples.world)]).
Proof.
  split; [reflexivity|].
  destruct (ReceiveMessage_buffered Examples.client0 1000
              (CtxDone DeadlineExceeded) Examples.hello [] [Examples.world]
              eq_refl) as (HR & _ & _ & _ & HN).
  split; [exact HR | exact HN].
Defined.

(** C10: with a timeout of zero or less, [PublishMessage] publishes and
    waits under the client's own context, no deadline added; with a
    positive timeout, a publish that fails while the context reports that
    its deadline is exceeded returns the empty id and a timeout error; and
    the call returns an error exactly when the publish result fails, the
    id being empty then. *)
Theorem PublishMessage_spec (c : PubSubClient) (data : string)
    (attributes : option (gmap string string)) (timeout : Z) (w : Broker) :
  let msg := mkMessage "" data attributes in
  (timeout ≤ 0 →
     (PublishMessage c data attributes timeout w).1
     = [Publish (ctx c) msg; Get (ctx c)])
  ∧ (0 < timeout →
     (PublishMessage c data attributes timeout w).1
     = [Publish (WithTimeout (ctx c) timeout) msg;
        Get (WithTimeout (ctx c) timeout)]
     ∧ ∀ err, getResult w (WithTimeout (ctx c) timeout) msg = Err err →
              ctxErr w (WithTimeout (ctx c) timeout) = Some DeadlineExceeded →
              (PublishMessage c data attributes timeout w).2
              = ("", Some ("timeout publishing message: " +:+ err)))
  ∧ ((PublishMessage c data attributes timeout w).2.2 ≠ None
     ↔ ∃ err, getResult w (publishContext c timeout) msg = Err err)
  ∧ ((PublishMessage c data attributes timeout w).2.2 ≠ None →
     (PublishMessage c data attributes timeout w).2.1 = "").
Proof.
  intros msg. unfold PublishMessage. fold msg.
  split; [|split; [|split]].
  - intros Hle. unfold publishContext.
    replace (0 <? timeout) with false by (symmetry; apply Z.ltb_ge; lia).
    by destruct (getResult w (ctx c) msg); [|destruct (ctxErr w (ctx c)) as [[]|]].
  - intros Hpos. unfold publishContext.
    replace (0 <? timeout) with true by (symmetry; apply Z.ltb_lt; lia).
    split.
    + by destruct (getResult w _ msg); [|destruct (ctxErr w _) as [[]|]].
    + intros err -> ->. reflexivity.
  - destruct (getResult w (publishContext c timeout) msg) as [id|err].
    + cbn. split; [done|]. intros [? [=]].
    + destruct (ctxErr w _) as [[]|]; cbn; split; eauto; done.
  - destruct (getResult w (publishContext c timeout) msg) as [id|err]; [done|].
    by destruct (ctxErr w _) as [[]|].
Qed.

Lemma PublishMessage_spec_witness :
  0 < 1
  ∧ (PublishMessage Examples.client0 "payload" None 1 Examples.brokerSlow).2
    = ("", Some "timeout publishing message: context deadline exceeded")
  ∧ (PublishMessage Examples.client0 "payload" None 0 Examples.brokerSlow).1
    = [Publish (ctx Examples.client0) (mkMessage "" "payload" None);
       Get (ctx Examples.client0)].
Proof.
  split; [lia|].
  destruct (PublishMessage_spec Examples.client0 "payload" None 1
              Examples.brokerSlow) as (_ & Hpos & _).
  destruct (PublishMessage_spec Examples.client0 "payload" None 0
              Examples.brokerSlow) as (Hle & _).
  split; [|apply Hle; lia].
  destruct (Hpos ltac:(lia)) as [_ Herr].
  exact (Herr _ eq_refl eq_refl).
Defined.

End PubSubProps.

(** * Further properties of the code *)

(** ** Event emission *)

Section HarnessProps.
Import Raft Harness TLC TLCMore.

Lemma roleDiff_app (id : Z) (old new : StateType) (oldTerm newTerm : Z)
    (tr : EventTrace) :
  ∃ evs,
    roleDiff id old new oldTerm newTerm tr = tr ++ evs
    ∧ (evs = [] ∨ evs = [Timeout id]
       ∨ evs = [BecomeLeader id; ClientRequest 0 id])
    ∧ Forall (λ e, Node e = id ∧ Reset e = false) evs.
Proof.
  exists (emitted tr (roleDiff id old new oldTerm newTerm tr)).
  split.
  - unfold roleDiff.
    repeat match goal with |- context [if ?b then _ else _] => destruct b end;
      rewrite ?AddEvent_app, <- ?app_assoc, ?emitted_app, ?emitted_self,
        ?app_nil_r; reflexivity.
  - rewrite roleDiff_cases. repeat case_bool_decide; split; auto;
      repeat constructor.
Qed.

(** X1: a role diff never drops or reorders what the trace holds: it adds
    nothing, one [Timeout], or [BecomeLeader] followed by [ClientRequest];
    every event it adds is for the diffed node and has [Reset] unset. *)
Theorem roleDiff_extends (id : Z) (old new : StateType) (oldTerm newTerm : Z)
    (tr : EventTrace) :
  ∃ evs,
    roleDiff id old new oldTerm newTerm tr = tr ++ evs
    ∧ (evs = [] ∨ evs = [Timeout id]
       ∨ evs = [BecomeLeader id; ClientRequest 0 id])
    ∧ Forall (λ e, Node e = id ∧ Reset e = false) evs.
Proof. apply roleDiff_app. Qed.

(** X2: a role diff adds no event when the new role is Follower or
    PreCandidate, when the node stays Leader, and when neither the role nor
    the term changed. *)
Theorem roleDiff_silent (id : Z) (old new : StateType) (oldTerm newTerm : Z)
    (tr : EventTrace) :
  new = StateFollower ∨ new = StatePreCandidate
  ∨ (old = StateLeader ∧ new = StateLeader)
  ∨ (old = new ∧ newTerm ≤ oldTerm) →
  roleDiff id old new oldTerm newTerm tr = tr.
Proof.
  intros Hcase. unfold roleDiff.
  destruct (Z.ltb_spec oldTerm newTerm); destruct old, new;
    repeat case_bool_decide; cbn; try reflexivity; exfalso;
    intuition (congruence || lia).
Qed.

Lemma roleDiff_silent_witness :
  (StateLeader = StateFollower ∨ StateLeader = StatePreCandidate
   ∨ (StateLeader = StateLeader ∧ StateLeader = StateLeader)
   ∨ (StateLeader = StateLeader ∧ 7 ≤ 4))
  ∧ roleDiff 1 StateLeader StateLeader 4 7 [BecomeLeader 1] = [BecomeLeader 1].
Proof.
  assert (StateLeader = StateFollower ∨ StateLeader = StatePreCandidate
          ∨ (StateLeader = StateLeader ∧ StateLeader = StateLeader)
          ∨ (StateLeader = StateLeader ∧ 7 ≤ 4)) as Hc
    by (right; right; left; split; reflexivity).
  split; [exact Hc|].
  exact (roleDiff_silent 1 StateLeader StateLeader 4 7 [BecomeLeader 1] Hc).
Defined.

(** X3: the [i] of [AdvanceCommitIndex] is the node's id for every id
    below 2^63; the conversion [int(id)] turns larger ids into negative
    numbers. *)
Theorem commitDiff_param {Entry : Type} (id : Z) (ready : Ready Entry)
    (tr : EventTrace) :
  CommittedEntries ready ≠ [] →
  0 ≤ id < 2 ^ 64 →
  ∃ i,
    commitDiff id ready tr
    = tr ++ [mkEvent "AdvanceCommitIndex" id (Some {[ "i" := VInt i ]}) false]
    ∧ (id < 2 ^ 63 → i = id)
    ∧ (2 ^ 63 ≤ id → i = id - 2 ^ 64 ∧ i < 0).
Proof.
  intros Hne Hid. exists (int_of_uint64 id). split.
  - unfold commitDiff. destruct (CommittedEntries ready) as [|e es]; [done|].
    cbn [length]. replace (0 <? Z.of_nat (S (length es))) with true
      by (symmetry; apply Z.ltb_lt; lia).
    reflexivity.
  - unfold int_of_uint64, int64_wrap. split; intros Hb.
    + rewrite Z.mod_small by lia. lia.
    + replace (id + 2 ^ 63) with ((id - 2 ^ 63) + 1 * 2 ^ 64) by lia.
      rewrite Z.mod_add by lia. rewrite Z.mod_small by lia. lia.
Qed.

Lemma commitDiff_param_witness :
  CommittedEntries (mkReady [tt]) ≠ [] ∧ 0 ≤ 3 < 2 ^ 64
  ∧ ∃ i, commitDiff 3 (mkReady [tt]) []
         = [mkEvent "AdvanceCommitIndex" 3 (Some {[ "i" := VInt i ]}) false]
         ∧ (3 < 2 ^ 63 → i = 3).
Proof.
  split; [discriminate|]. split; [lia|].
  destruct (commitDiff_param 3 (mkReady [tt]) [] ltac:(discriminate)
              ltac:(lia)) as (i & HE & Hlow & _).
  exists i. split; [exact HE | exact Hlow].
Defined.

End HarnessProps.

(** ** The TLC client, continued *)

Section TLCMoreProps.
Import Raft Harness TLC TLCMore.

Lemma mapR_Ok_Forall {A B : Type} (f : A → result B) (l : list A) :
  (∃ ys, mapR f l = Ok ys) ↔ Forall (λ x, ∃ y, f x = Ok y) l.
Proof.
  split.
  - intros [ys Hys]. apply mapR_Ok in Hys.
    induction Hys; constructor; eauto.
  - induction 1 as [|x l [y Hy] _ [ys Hys]]; cbn; [eauto|].
    rewrite Hy. cbn. rewrite Hys. cbn. eauto.
Qed.

Lemma mapR_Err_Forall {A B : Type} (f : A → result B) (l : list A) :
  ¬ Forall (λ x, ∃ y, f x = Ok y) l → ∃ e, mapR f l = Err e.
Proof.
  intros Hn. destruct (mapR f l) as [ys|e] eqn:E; [|eauto].
  exfalso. apply Hn, mapR_Ok_Forall. eauto.
Qed.

Lemma marshalParams_Ok (ps : option (gmap string Value)) :
  (∃ j, marshalParams ps = Ok j)
  ↔ match ps with
    | None => True
    | Some m => map_Forall (λ _ v, v ≠ VFunc) m
    end.
Proof.
  destruct ps as [m|]; cbn; [|split; eauto].
  assert ((∃ fs, mapR marshalField (merge_sort keyLe (map_to_list m)) = Ok fs)
          ↔ map_Forall (λ _ v, v ≠ VFunc) m) as Hiff.
  { rewrite mapR_Ok_Forall, merge_sort_Permutation, map_Forall_to_list.
    apply Forall_iff. intros [k v]. unfold marshalField. cbn.
    destruct v; cbn; split; eauto; try done. intros [? [=]]. }
  split.
  - intros [j Hj]. apply bindR_Ok in Hj as (fs & Hfs & _). apply Hiff. eauto.
  - intros Hm. apply Hiff in Hm as [fs Hfs]. rewrite Hfs. cbn. eauto.
Qed.

Lemma marshalEvent_Ok (e : Event) :
  (∃ o, marshalEvent e = Ok o) ↔ marshalable e.
Proof.
  unfold marshalable. rewrite <- marshalParams_Ok. unfold marshalEvent. split.
  - intros [o Ho]. apply bindR_Ok in Ho as (ps & Hps & _). eauto.
  - intros [ps Hps]. rewrite Hps. cbn. eauto.
Qed.

Lemma marshalTrace_Ok (tr : EventTrace) :
  (∃ data, marshalTrace tr = Ok data) ↔ Forall marshalable tr.
Proof.
  unfold marshalTrace. rewrite <- (Forall_iff _ tr _ marshalEvent_Ok), <- mapR_Ok_Forall.
  split.
  - intros [d Hd]. apply bindR_Ok in Hd as (es & Hes & _). eauto.
  - intros [es Hes]. rewrite Hes. cbn. eauto.
Qed.

Lemma sentinel_marshalable : marshalable sentinel.
Proof. exact I. Qed.

(** X4: a call of [SendTrace] posts one request, to the [/execute]
    endpoint of the client's address and as [application/json], if every
    value in the events' [Params] can be encoded; if one cannot, it posts
    nothing and returns a marshalling error. *)
Theorem SendTrace_posts (c : TLCClient) (srv : Server) (trace : EventTrace) :
  (Forall marshalable trace →
   ∃ data, marshalTrace (trace ++ [sentinel]) = Ok data
     ∧ (SendTrace c srv trace).1.2
       = [mkRequest ("http://" +:+ ClientAddr c +:+ "/execute")
                    "application/json" data])
  ∧ (¬ Forall marshalable trace →
     (SendTrace c srv trace).1.2 = []
     ∧ ∃ err, (SendTrace c srv trace).2
              = Err ("error marshalling json: " +:+ err)).
Proof.
  split.
  - intros Hall.
    assert (Forall marshalable (trace ++ [sentinel])) as Hall'
      by (apply Forall_app; split; [done | repeat constructor]).
    apply marshalTrace_Ok in Hall' as [data Hdata]. exists data.
    split; [done|]. unfold SendTrace. rewrite Hdata.
    by destruct (httpPost srv _).
  - intros Hn. unfold SendTrace.
    destruct (marshalTrace (trace ++ [sentinel])) as [data|err] eqn:E.
    + exfalso. apply Hn.
      assert (Forall marshalable (trace ++ [sentinel])) as Hall
        by (apply marshalTrace_Ok; eauto).
      by apply Forall_app in Hall as [? _].
    + cbn. eauto.
Qed.

Lemma SendTrace_posts_witness :
  Forall marshalable Examples.events0
  ∧ ∃ data, (SendTrace (mkTLCClient "127.0.0.1:2023") Examples.srvDown
                       Examples.events0).1.2
            = [mkRequest "http://127.0.0.1:2023/execute" "application/json"
                         data].
Proof.
  assert (Forall marshalable Examples.events0) as Hall.
  { repeat constructor; unfold marshalable; cbn;
      apply map_Forall_lookup; intros k v;
      rewrite ?lookup_insert, ?lookup_singleton;
      repeat case_decide; intros [= <-]; discriminate. }
  split; [exact Hall|].
  destruct (SendTrace_posts (mkTLCClient "127.0.0.1:2023") Examples.srvDown
              Examples.events0) as [Hpost _].
  destruct (Hpost Hall) as (data & _ & Hreq). exists data. exact Hreq.
Defined.

(** X5: the [Node] of an event has no influence on what is sent nor on
    the result: two traces whose events agree on [Name], [Params] and
    [Reset] lead to the same requests and the same result. *)
Theorem SendTrace_ignores_Node (c : TLCClient) (srv : Server)
    (trace trace' : EventTrace) :
  Forall2 (λ e e', Name e = Name e' ∧ Params e = Params e'
                   ∧ Reset e = Reset e') trace trace' →
  (SendTrace c srv trace).1.2 = (SendTrace c srv trace').1.2
  ∧ (SendTrace c srv trace).2 = (SendTrace c srv trace').2.
Proof.
  intros Hagree.
  assert (marshalTrace (trace ++ [sentinel])
          = marshalTrace (trace' ++ [sentinel])) as Heq.
  { unfold marshalTrace. f_equal.
    induction Hagree as [|e e' tr tr' (Hn & Hp & Hr) _ IH]; [done|].
    cbn. rewrite IH. unfold marshalEvent. by rewrite Hn, Hp, Hr. }
  unfold SendTrace. rewrite Heq.
  destruct (marshalTrace (trace' ++ [sentinel])); [|done].
  by destruct (httpPost srv _).
Qed.

Lemma SendTrace_ignores_Node_witness :
  Forall2 (λ e e', Name e = Name e' ∧ Params e = Params e'
                   ∧ Reset e = Reset e')
          [Timeout 1] [mkEvent "Timeout" 9 (Some {[ "node" := VUint64 1 ]}) false]
  ∧ (SendTrace (mkTLCClient "h") Examples.srvUp [Timeout 1]).2
    = (SendTrace (mkTLCClient "h") Examples.srvUp
         [mkEvent "Timeout" 9 (Some {[ "node" := VUint64 1 ]}) false]).2.
Proof.
  assert (Forall2 (λ e e', Name e = Name e' ∧ Params e = Params e'
                           ∧ Reset e = Reset e')
            [Timeout 1]
            [mkEvent "Timeout" 9 (Some {[ "node" := VUint64 1 ]}) false]) as Ha
    by (repeat constructor).
  split; [exact Ha|].
  exact (proj2 (SendTrace_ignores_Node (mkTLCClient "h") Examples.srvUp _ _ Ha)).
Defined.

Lemma SendTrace_trace (c : TLCClient) (srv : Server) (trace : EventTrace) :
  (SendTrace c srv trace).1.1 = trace ++ [sentinel].
Proof.
  unfold SendTrace. destruct (marshalTrace _); [destruct (httpPost _ _)|]; done.
Qed.

Lemma sendN_trace (n : nat) (c : TLCClient) (srv : Server)
    (trace : EventTrace) :
  (sendN n c srv trace).1 = trace ++ replicate n sentinel.
Proof.
  revert trace. induction n as [|n IH]; intros trace; cbn [sendN fst replicate].
  - by rewrite app_nil_r.
  - rewrite IH, SendTrace_trace, <- app_assoc. reflexivity.
Qed.

(** X6: [SendTrace] extends the caller's list by one sentinel at every
    call, whatever the outcome, so [n] calls on the same list leave [n]
    sentinels behind; if the events can be encoded, the call number [k]
    (from 0) posts the trace followed by [k + 1] sentinels. *)
Theorem sendN_sentinels (n : nat) (c : TLCClient) (srv : Server)
    (trace : EventTrace) :
  (sendN n c srv trace).1 = trace ++ replicate n sentinel
  ∧ (Forall marshalable trace →
     length (sendN n c srv trace).2 = n
     ∧ ∀ k req, (sendN n c srv trace).2 !! k = Some req →
         marshalTrace (trace ++ replicate (S k) sentinel) = Ok (body req)).
Proof.
  split; [apply sendN_trace|].
  revert trace. induction n as [|n IH]; intros trace Hall; cbn [sendN snd].
  - split; [done|]. intros k req Hk. by rewrite lookup_nil in Hk.
  - destruct (SendTrace_posts c srv trace) as [Hpost _].
    destruct (Hpost Hall) as (data & Hdata & Hreq). rewrite Hreq.
    assert (Forall marshalable ((SendTrace c srv trace).1.1)) as Hall'.
    { rewrite SendTrace_trace. apply Forall_app. split; [done|].
      repeat constructor. }
    destruct (IH _ Hall') as [Hlen Hbody]. split; [cbn; by rewrite Hlen|].
    intros [|k] req Hk; cbn in Hk.
    + injection Hk as <-. cbn. exact Hdata.
    + apply Hbody in Hk. rewrite SendTrace_trace, <- app_assoc in Hk.
      exact Hk.
Qed.

Lemma sendN_sentinels_witness :
  Forall marshalable [Timeout 1]
  ∧ (sendN 2 (mkTLCClient "h") Examples.srvDown [Timeout 1]).1
    = [Timeout 1; sentinel; sentinel]
  ∧ length (sendN 2 (mkTLCClient "h") Examples.srvDown [Timeout 1]).2 = 2%nat.
Proof.
  assert (Forall marshalable [Timeout 1]) as Hall
    by (repeat constructor; apply map_Forall_singleton; discriminate).
  split; [exact Hall|].
  destruct (sendN_sentinels 2 (mkTLCClient "h") Examples.srvDown [Timeout 1])
    as [Htr Hreqs].
  split; [exact Htr|]. exact (proj1 (Hreqs Hall)).
Defined.

Example sendN_twice :
  (sendN 2 (mkTLCClient "h") Examples.srvUp [Timeout 1]).1
  = [Timeout 1; sentinel; sentinel].
Proof. vm_compute. reflexivity. Qed.

Lemma emits_marshalable (tr : EventTrace) :
  emits tr → Forall (λ e, Reset e = false ∧ marshalable e) tr.
Proof.
  assert (∀ (k : string) (v : Value), v ≠ VFunc →
            map_Forall (λ _ v, v ≠ VFunc) ({[ k := v ]} : gmap string Value))
    as Hsingle by (intros k v Hv; by apply map_Forall_singleton).
  assert (∀ id, marshalable (Timeout id) ∧ marshalable (BecomeLeader id)
                ∧ marshalable (AdvanceCommitIndex id)) as H1
    by (intros id; repeat split; apply Hsingle; discriminate).
  assert (∀ r l, marshalable (ClientRequest r l)) as H2.
  { intros r l. unfold marshalable. cbn. apply map_Forall_insert_2; [done|].
    by apply Hsingle. }
  induction 1 as [|request leader tr _ IH|id old new oT nT tr _ IH
                  |Entry id ready tr _ IH].
  - constructor.
  - apply Forall_app. split; [done|]. repeat constructor. apply H2.
  - destruct (roleDiff_app id old new oT nT tr) as (evs & -> & Hevs & _).
    apply Forall_app. split; [done|].
    destruct Hevs as [->| [->| ->]]; repeat constructor; try apply H1; apply H2.
  - unfold commitDiff. destruct (0 <? _); [|done].
    apply Forall_app. split; [done|]. repeat constructor. apply H1.
Qed.

(** X7: for a trace built by the emission sites of [raft.go] the
    marshalling cannot fail: [SendTrace] posts exactly one request, and in
    its body the final element, the sentinel, is the only one whose
    [Reset] is [true]. *)
Theorem emits_SendTrace (c : TLCClient) (srv : Server) (tr : EventTrace) :
  emits tr →
  ∃ objs final,
    (SendTrace c srv tr).1.2
    = [mkRequest ("http://" +:+ ClientAddr c +:+ "/execute")
                 "application/json" (JArray (objs ++ [final]))]
    ∧ length objs = length tr
    ∧ Forall (λ o, field "Reset" o = Some (JBool false)) objs
    ∧ field "Reset" final = Some (JBool true).
Proof.
  intros Hem%emits_marshalable.
  assert (Forall marshalable tr) as Hall
    by (eapply Forall_impl; [exact Hem | by intros ? [_ ?]]).
  destruct (SendTrace_posts c srv tr) as [Hpost _].
  destruct (Hpost Hall) as (data & Hdata & Hreq).
  pose proof Hdata as Hd. unfold marshalTrace in Hd.
  apply bindR_Ok in Hd as (es & Hes & [= <-]). apply mapR_Ok in Hes.
  apply Forall2_app_inv_l in Hes as (objs & fin & Hobjs & Hfin & ->).
  apply Forall2_cons_inv_l in Hfin as (final & rest & Hf & Hnil & ->).
  apply Forall2_nil_inv_l in Hnil as ->.
  exists objs, final. split; [exact Hreq|].
  split; [symmetry; by eapply Forall2_length|]. split.
  - clear -Hobjs Hem. induction Hobjs as [|e o tr os He _ IH]; [constructor|].
    apply Forall_cons in Hem as [[Hr _] Hem]. constructor; [|by apply IH].
    apply marshalEvent_no_Node in He as [_ ->]. by rewrite Hr.
  - cbn in Hf. by injection Hf as <-.
Qed.

Lemma emits_SendTrace_witness :
  emits (roleDiff 1 StateCandidate StateLeader 2 2
           (roleDiff 1 StateFollower StateCandidate 1 2 []))
  ∧ ∃ objs final,
      (SendTrace (mkTLCClient "h") Examples.srvUp
         (roleDiff 1 StateCandidate StateLeader 2 2
            (roleDiff 1 StateFollower StateCandidate 1 2 []))).1.2
      = [mkRequest "http://h/execute" "application/json"
                   (JArray (objs ++ [final]))]
      ∧ length objs = 3%nat.
Proof.
  assert (emits (roleDiff 1 StateCandidate StateLeader 2 2
                   (roleDiff 1 StateFollower StateCandidate 1 2 []))) as He
    by (do 2 apply emits_roleDiff; apply emits_nil).
  split; [exact He|].
  destruct (emits_SendTrace (mkTLCClient "h") Examples.srvUp _ He)
    as (objs & final & Hreq & Hlen & _).
  exists objs, final. split; [exact Hreq | exact Hlen].
Defined.

End TLCMoreProps.

(** ** The guider, continued *)

Section GuiderMoreProps.
Import TLC TLCMore Guider.

Lemma foldl_visit_bounds (l : list State) (m : gmap Z bool) (n : Z) :
  n ≤ (foldl visit (m, n) l).2 ≤ n + Z.of_nat (length l).
Proof.
  revert m n. induction l as [|s l IH]; intros m n; cbn [foldl length]; [cbn; lia|].
  unfold visit at 2 4. cbn [fst snd]. destruct (m !! Key s).
  - specialize (IH m n). lia.
  - specialize (IH (<[Key s:=true]> m) (n + 1)). lia.
Qed.

Lemma foldl_visit_known (l : list State) (m : gmap Z bool) (n : Z) :
  Forall (λ s, Key s ∈ dom m) l → foldl visit (m, n) l = (m, n).
Proof.
  induction 1 as [|s l Hs _ IH]; cbn [foldl]; [done|].
  unfold visit at 2. cbn [fst snd].
  apply elem_of_dom in Hs as [b ->]. exact IH.
Qed.

Lemma known_iff_difference (l : list State) (X : gset Z) :
  Forall (λ s, Key s ∈ X) l
  ↔ size (list_to_set (Key <$> l) ∖ X : gset Z) = 0%nat.
Proof.
  rewrite size_empty_iff, Forall_forall. split.
  - intros Hall. apply set_equiv. intros k.
    rewrite elem_of_difference, elem_of_list_to_set, list_elem_of_fmap.
    split; [|set_solver]. intros [(s & -> & Hs) Hk]. destruct Hk. by apply Hall.
  - intros Hempty s Hs. destruct (decide (Key s ∈ X)) as [|Hn]; [done|].
    exfalso. apply (not_elem_of_empty (C:=gset Z) (Key s)). rewrite <- Hempty.
    apply elem_of_difference. split; [|done].
    apply elem_of_list_to_set, list_elem_of_fmap. eauto.
Qed.

(** X8: the count [Check] returns lies between 0 and the number of states
    the server returned, and the state set grows by no more than that; the
    count is 0 exactly when every returned key was already in the state
    set, and then the state map is left as it was. *)
Theorem Check_bounds (srv : Server) (t : TLCStateGuider) (trace : Trace)
    (eventTrace eventTrace' : EventTrace) (reqs : list Request)
    (tlcStates : list State) :
  SendTrace (tlcClient t) srv eventTrace = (eventTrace', reqs, Ok tlcStates) →
  ∃ t' numNewStates gain,
    Check srv t trace eventTrace
      = (t', eventTrace', reqs, Returned (numNewStates, gain))
    ∧ 0 ≤ numNewStates ≤ Z.of_nat (length tlcStates)
    ∧ (size (states t') ≤ size (states t) + length tlcStates)%nat
    ∧ (numNewStates = 0 ↔ Forall (λ s, Key s ∈ states t) tlcStates)
    ∧ (numNewStates = 0 → statesMap t' = statesMap t).
Proof.
  intros HS. unfold Check. rewrite HS.
  cbn [recordTrace statesMap tlcClient records].
  eexists _, _, _. split; [reflexivity|]. unfold states. cbn [statesMap].
  pose proof (foldl_visit_bounds tlcStates (statesMap t) 0) as Hb.
  destruct (foldl_visit tlcStates (statesMap t) 0) as [Hdom Hn].
  assert ((foldl visit (statesMap t, 0) tlcStates).2 = 0
          ↔ Forall (λ s, Key s ∈ dom (statesMap t)) tlcStates) as Hiff
    by (rewrite known_iff_difference, Hn; lia).
  split; [lia|]. split; [|split; [exact Hiff|]].
  - rewrite Hdom.
    rewrite (size_union_alt (dom (statesMap t))
               (list_to_set (Key <$> tlcStates))).
    lia.
  - intros H0%Hiff. by rewrite foldl_visit_known.
Qed.

Lemma Check_bounds_witness :
  SendTrace (tlcClient Examples.guider0) Examples.srvUp Examples.events0
  = (Examples.events0 ++ [sentinel],
     (SendTrace (tlcClient Examples.guider0) Examples.srvUp Examples.events0).1.2,
     Ok [mkState "s0" 11; mkState "s1" 12; mkState "s1" 12])
  ∧ ∃ t' numNewStates gain,
      Check Examples.srvUp Examples.guider0 Examples.trace0 Examples.events0
      = (t', Examples.events0 ++ [sentinel],
         (SendTrace (tlcClient Examples.guider0) Examples.srvUp Examples.events0).1.2,
         Returned (numNewStates, gain))
      ∧ 0 ≤ numNewStates ≤ 3.
Proof.
  split; [vm_compute; reflexivity|].
  destruct (Check_bounds Examples.srvUp Examples.guider0 Examples.trace0
              Examples.events0 _ _ _ ltac:(vm_compute; reflexivity))
    as (t' & n & g & HC & Hn & _).
  exists t', n, g. split; [exact HC | exact Hn].
Defined.

(** X9: [Check] leaves the caller's event trace one sentinel longer in
    every outcome; when it returns it has recorded, once, the scheduling
    trace with the event trace including that sentinel and the states
    returned; when it panics the guider is untouched. *)
Theorem Check_leaves_sentinel (srv : Server) (t : TLCStateGuider)
    (trace : Trace) (eventTrace : EventTrace) :
  (Check srv t trace eventTrace).1.1.2 = eventTrace ++ [sentinel]
  ∧ match (Check srv t trace eventTrace).2 with
    | Returned _ =>
        ∃ tlcStates,
          (SendTrace (tlcClient t) srv eventTrace).2 = Ok tlcStates
          ∧ records (after (Check srv t trace eventTrace))
            = records t ++ [(trace, eventTrace ++ [sentinel], tlcStates)]
    | Panicked _ => after (Check srv t trace eventTrace) = t
    end.
Proof.
  pose proof (SendTrace_trace (tlcClient t) srv eventTrace) as Htr.
  unfold Check, after.
  destruct (SendTrace (tlcClient t) srv eventTrace) as [[ev' reqs] [sts|e]];
    cbn in *; subst ev'; split; eauto.
Qed.

Lemma Check_known (srv : Server) (t : TLCStateGuider) (trace : Trace)
    (eventTrace eventTrace' : EventTrace) (reqs : list Request)
    (tlcStates : list State) :
  SendTrace (tlcClient t) srv eventTrace = (eventTrace', reqs, Ok tlcStates) →
  Forall (λ s, Key s ∈ dom (statesMap t)) tlcStates →
  Check srv t trace eventTrace
  = (recordTrace t trace eventTrace' tlcStates, eventTrace', reqs,
     Returned (0, float64_div (float64_of_int 0)
                    (float64_of_int
                       (go_max (Z.of_nat (size (statesMap t))) 1)))).
Proof.
  intros HS Hknown. unfold Check. rewrite HS.
  cbn [recordTrace statesMap tlcClient records].
  by rewrite (foldl_visit_known tlcStates (statesMap t) 0 Hknown).
Qed.

(** X10: scoring again adds nothing: after a call of [Check] that
    returned, a further call for which the server returns only keys it
    returned before finds 0 new states and leaves the state set as it is. *)
Theorem Check_twice (srv srv' : Server) (t : TLCStateGuider)
    (trace trace' : Trace) (eventTrace ev1 eventTrace' ev2 : EventTrace)
    (reqs1 reqs2 : list Request) (sts1 sts2 : list State) :
  SendTrace (tlcClient t) srv eventTrace = (ev1, reqs1, Ok sts1) →
  SendTrace (tlcClient t) srv' eventTrace' = (ev2, reqs2, Ok sts2) →
  Forall (λ s, Key s ∈ Key <$> sts1) sts2 →
  ∃ gain,
    (Check srv' (after (Check srv t trace eventTrace)) trace' eventTrace').2
    = Returned (0, gain)
    ∧ states (after (Check srv' (after (Check srv t trace eventTrace))
                           trace' eventTrace'))
      = states (after (Check srv t trace eventTrace)).
Proof.
  intros HS1 HS2 Hsub.
  set (t1 := after (Check srv t trace eventTrace)).
  assert (tlcClient t1 = tlcClient t) as Hc
    by (unfold t1, after, Check; by rewrite HS1).
  assert (Forall (λ s, Key s ∈ dom (statesMap t1)) sts2) as Hknown.
  { assert (dom (statesMap t1) = dom (statesMap t) ∪ list_to_set (Key <$> sts1))
      as -> by (unfold t1, after, Check; rewrite HS1; cbn;
                apply (foldl_visit sts1 (statesMap t) 0)).
    eapply Forall_impl; [exact Hsub|]. intros s Hs. set_solver. }
  rewrite <- Hc in HS2.
  rewrite (Check_known _ _ _ _ _ _ _ HS2 Hknown). unfold after, states.
  eexists. split; reflexivity.
Qed.

Lemma Check_twice_witness :
  Forall (λ s, Key s ∈ Key <$> [mkState "s0" 11; mkState "s1" 12;
                                mkState "s1" 12])
         [mkState "s0" 11; mkState "s1" 12; mkState "s1" 12]
  ∧ ∃ gain,
      (Check Examples.srvUp
         (after (Check Examples.srvUp Examples.guider0 Examples.trace0
                       Examples.events0))
         Examples.trace0 Examples.events0).2
      = Returned (0, gain).
Proof.
  assert (Forall (λ s, Key s ∈ Key <$> [mkState "s0" 11; mkState "s1" 12;
                                        mkState "s1" 12])
            [mkState "s0" 11; mkState "s1" 12; mkState "s1" 12]) as Hsub
    by (repeat constructor; cbn; set_solver).
  split; [exact Hsub|].
  destruct (Check_twice Examples.srvUp Examples.srvUp Examples.guider0
              Examples.trace0 Examples.trace0 Examples.events0 _
              Examples.events0 _ _ _ _ _
              ltac:(vm_compute; reflexivity) ltac:(vm_compute; reflexivity)
              Hsub) as (gain & HR & _).
  exists gain. exact HR.
Defined.

(** *** Conversions of small integers to [float64] *)

Lemma digits2_pos_iter (p k : positive) :
  digits2_pos (Pos.iter xO p k) = (digits2_pos p + k)%positive.
Proof.
  induction k as [|k IH] using Pos.peano_ind.
  - cbn. lia.
  - rewrite Pos.iter_succ. cbn [digits2_pos]. rewrite IH. lia.
Qed.

Lemma digits2_pos_lower (p : positive) :
  2 ^ (Zpos (digits2_pos p) - 1) ≤ Zpos p.
Proof.
  induction p as [p IH|p IH|]; cbn [digits2_pos]; [| |cbn; lia].
  - rewrite Pos2Z.inj_succ. replace (Z.succ (Zpos (digits2_pos p)) - 1) with (Z.succ (Zpos (digits2_pos p) - 1)) by lia.
    rewrite Z.pow_succ_r by lia. lia.
  - rewrite Pos2Z.inj_succ. replace (Z.succ (Zpos (digits2_pos p)) - 1) with (Z.succ (Zpos (digits2_pos p) - 1)) by lia.
    rewrite Z.pow_succ_r by lia. lia.
Qed.

Lemma digits2_pos_le_53 (p : positive) :
  Zpos p < 2 ^ 53 → Zpos (digits2_pos p) ≤ 53.
Proof.
  intros Hp. pose proof (digits2_pos_lower p) as Hl.
  destruct (Z.le_gt_cases (Zpos (digits2_pos p)) 53) as [|Hgt]; [done|].
  exfalso. assert (2 ^ 53 ≤ 2 ^ (Zpos (digits2_pos p) - 1))
    by (apply Z.pow_le_mono_r; lia). lia.
Qed.

Lemma binary_round_aux_exact (mz : positive) (ez : Z) :
  Zpos (digits2_pos mz) = 53 → -1074 ≤ ez ≤ 971 →
  binary_round_aux 53 1024 false (Zpos mz) ez loc_Exact
  = S754_finite false mz ez.
Proof.
  intros Hd He. unfold binary_round_aux, shr_fexp, fexp, emin, Zdigits2.
  rewrite Hd.
  replace (Z.sub (Z.max (Z.sub (Z.add 53 ez) 53) (Z.sub (Z.sub 3 1024) 53)) ez) with 0 by lia.
  cbn [shr shr_record_of_loc shr_m loc_of_shr_record round_nearest_even Zdigits2].
  rewrite Hd.
  replace (Z.sub (Z.max (Z.sub (Z.add 53 ez) 53) (Z.sub (Z.sub 3 1024) 53)) ez) with 0 by lia.
  cbn [shr shr_m].
  replace (Z.leb ez (Z.sub 1024 53)) with true by (symmetry; apply Z.leb_le; lia).
  reflexivity.
Qed.

Lemma float64_of_int_finite (n : Z) :
  0 < n < 2 ^ 53 → ∃ m e, float64_of_int n = S754_finite false m e.
Proof.
  intros Hn. destruct n as [|p|p]; [lia| |lia].
  pose proof (digits2_pos_le_53 p ltac:(lia)) as Hd.
  unfold float64_of_int, binary_normalize, binary_round, shl_align, fexp, emin.
  destruct (Z.sub (Z.max (Z.sub (Z.add (Zpos (digits2_pos p)) 0) 53) (Z.sub (Z.sub 3 1024) 53)) 0) as [|d|d] eqn:E.
  - rewrite binary_round_aux_exact; [eauto | lia | lia].
  - lia.
  - rewrite binary_round_aux_exact; [eauto | rewrite digits2_pos_iter; lia | lia].
Qed.

Lemma float64_div_zero (n : Z) :
  0 < n < 2 ^ 53 →
  float64_div (float64_of_int 0) (float64_of_int n) = S754_zero false.
Proof.
  intros (m & e & ->)%float64_of_int_finite. reflexivity.
Qed.

(** X14: when every returned key was already known, and the state set
    holds fewer than 2^53 keys, the gain [Check] returns is the float
    +0. *)
Theorem Check_no_gain (srv : Server) (t : TLCStateGuider) (trace : Trace)
    (eventTrace eventTrace' : EventTrace) (reqs : list Request)
    (tlcStates : list State) :
  SendTrace (tlcClient t) srv eventTrace = (eventTrace', reqs, Ok tlcStates) →
  Forall (λ s, Key s ∈ states t) tlcStates →
  Z.of_nat (size (states t)) < 2 ^ 53 →
  (Check srv t trace eventTrace).2 = Returned (0, S754_zero false).
Proof.
  intros HS Hknown Hsize. rewrite (Check_known _ _ _ _ _ _ _ HS Hknown).
  cbn [snd]. unfold states in Hsize. rewrite size_dom in Hsize.
  rewrite go_max_Zmax, float64_div_zero by lia. reflexivity.
Qed.

Lemma Check_no_gain_witness :
  Forall (λ s, Key s ∈ states Examples.guider0) [mkState "s0" 11]
  ∧ Z.of_nat (size (states Examples.guider0)) < 2 ^ 53
  ∧ (Check (mkServer (λ _, Ok "{}") (λ _, Ok [mkState "s0" 11]))
           Examples.guider0 Examples.trace0 Examples.events0).2
    = Returned (0, S754_zero false).
Proof.
  assert (Forall (λ s, Key s ∈ states Examples.guider0) [mkState "s0" 11])
    as Hk by (repeat constructor; vm_compute; set_solver).
  assert (Z.of_nat (size (states Examples.guider0)) < 2 ^ 53) as Hs
    by (vm_compute; reflexivity).
  split; [exact Hk|]. split; [exact Hs|].
  exact (Check_no_gain (mkServer (λ _, Ok "{}") (λ _, Ok [mkState "s0" 11]))
           Examples.guider0 Examples.trace0 Examples.events0 _ _ _
           ltac:(vm_compute; reflexivity) Hk Hs).
Defined.

End GuiderMoreProps.

(** ** The fuzzer's mutation loop, continued *)

Section FuzzerMoreProps.
Import TLC Guider Fuzzer.
Context {M : Type} `{Mutator M}.
Variable defaultCopyFilter : SchedulingChoice → bool.

Lemma mutateLoop_MutPerTrace (n : nat) (trace : Trace)
    (eventTrace : EventTrace) (f : Fuzzer M) :
  MutPerTrace (mutateLoop defaultCopyFilter n trace eventTrace f).1
  = MutPerTrace f.
Proof.
  revert f. induction n as [|n IH]; intros f; cbn [mutateLoop fst]; [done|].
  by rewrite IH.
Qed.

(** X11: when the guider cannot get a verdict from the server, the
    iteration panics with the guider's message and no mutant is made. *)
Theorem scoreAndMutate_panics (srv : Server) (g : TLCStateGuider)
    (f : Fuzzer M) (trace : Trace) (eventTrace : EventTrace) :
  transportFailure (tlcClient g) srv eventTrace →
  ∃ err, scoreAndMutate defaultCopyFilter srv g f trace eventTrace
         = Panicked ("error connecting to tlc: " +:+ err).
Proof.
  intros (err & Herr)%transportFailure_SendTrace. exists err.
  unfold scoreAndMutate. by rewrite (Check_panics_on_error _ _ _ _ _ Herr).
Qed.

(** X12: an iteration never removes or reorders queued traces: the old
    queue is a prefix of the new one, which is longer by the number of
    calls of the mutator that returned [ok]; [MutPerTrace] is unchanged,
    and the guider is the one [Check] left. *)
Theorem scoreAndMutate_queue (srv : Server) (g g' : TLCStateGuider)
    (f f' : Fuzzer M) (trace : Trace) (eventTrace : EventTrace)
    (calls : list (Trace * bool)) :
  scoreAndMutate defaultCopyFilter srv g f trace eventTrace
    = Returned (g', f', calls) →
  mutatedTracesQueue f `prefix_of` mutatedTracesQueue f'
  ∧ length (mutatedTracesQueue f')
    = (length (mutatedTracesQueue f) + length (List.filter snd calls))%nat
  ∧ MutPerTrace f' = MutPerTrace f
  ∧ g' = after (Check srv g trace eventTrace).
Proof.
  unfold scoreAndMutate, after.
  destruct (Check srv g trace eventTrace) as [[[g1 ev1] reqs] [[n gain]|msg]];
    [|discriminate].
  intros [= <- <- <-]. cbn [fst]. unfold mutateNew.
  destruct (0 <? n).
  - destruct (mutateLoop_spec defaultCopyFilter
                (Z.to_nat (int64_wrap (n * MutPerTrace f))) trace ev1 f)
      as (_ & _ & Hq).
    rewrite Hq, mutateLoop_MutPerTrace. unfold children.
    split; [by eexists|]. split; [|done].
    by rewrite length_app, length_fmap.
  - cbn. split; [done|]. split; [lia | done].
Qed.

(** X13: with [MutPerTrace] zero or negative no mutant is made, however
    many new states were found; the same holds when the product of the
    two counts overflows into the negative half of [int]. *)
Theorem scoreAndMutate_disabled (srv : Server) (g g' : TLCStateGuider)
    (f : Fuzzer M) (trace : Trace) (eventTrace eventTrace' : EventTrace)
    (reqs : list Request) (new : Z) (gain : float64) :
  Check srv g trace eventTrace = (g', eventTrace', reqs, Returned (new, gain)) →
  (- 2 ^ 63 ≤ new * MutPerTrace f ≤ 0)
  ∨ (2 ^ 63 ≤ new * MutPerTrace f < 2 ^ 64) →
  scoreAndMutate defaultCopyFilter srv g f trace eventTrace
  = Returned (g', f, []).
Proof.
  intros HC Hrange. unfold scoreAndMutate. rewrite HC. unfold mutateNew.
  destruct (0 <? new); [|done].
  assert (int64_wrap (new * MutPerTrace f) ≤ 0) as Hw.
  { unfold int64_wrap. destruct Hrange as [Hr|Hr].
    - rewrite Z.mod_small by lia. lia.
    - replace (new * MutPerTrace f + 2 ^ 63)
        with ((new * MutPerTrace f - 2 ^ 63) + 1 * 2 ^ 64) by lia.
      rewrite Z.mod_add by lia. rewrite Z.mod_small by lia. lia. }
  replace (Z.to_nat (int64_wrap (new * MutPerTrace f))) with 0%nat by lia.
  reflexivity.
Qed.

End FuzzerMoreProps.

Lemma scoreAndMutate_panics_witness :
  TLC.transportFailure (Guider.tlcClient Examples.guider0) Examples.srvDown
    Examples.events0
  ∧ ∃ err, Fuzzer.scoreAndMutate Examples.keepAll Examples.srvDown
             Examples.guider0 Examples.fuzzer0 Examples.trace0 Examples.events0
           = Panicked ("error connecting to tlc: " +:+ err).
Proof.
  assert (TLC.transportFailure (Guider.tlcClient Examples.guider0)
            Examples.srvDown Examples.events0) as Hf.
  { eexists. split; [vm_compute; reflexivity|]. left. eexists. reflexivity. }
  split; [exact Hf|].
  exact (scoreAndMutate_panics Examples.keepAll Examples.srvDown
           Examples.guider0 Examples.fuzzer0 Examples.trace0 Examples.events0 Hf).
Defined.

Lemma scoreAndMutate_queue_witness :
  ∃ g' f' calls,
    Fuzzer.scoreAndMutate Examples.keepAll Examples.srvUp Examples.guider0
      Examples.fuzzer0 Examples.trace0 Examples.events0
    = Returned (g', f', calls)
    ∧ length (Fuzzer.mutatedTracesQueue f')
      = (length (Fuzzer.mutatedTracesQueue Examples.fuzzer0)
         + length (List.filter snd calls))%nat.
Proof.
  eexists _, _, _. split; [vm_compute; reflexivity|].
  refine (proj1 (proj2 (scoreAndMutate_queue Examples.keepAll Examples.srvUp
                          Examples.guider0 _ Examples.fuzzer0 _ Examples.trace0
                          Examples.events0 _ _))).
  vm_compute. reflexivity.
Defined.

Lemma scoreAndMutate_disabled_witness :
  (- 2 ^ 63 ≤ 1 * Fuzzer.MutPerTrace (Fuzzer.mkFuzzer tt 0 []) ≤ 0
   ∨ 2 ^ 63 ≤ 1 * Fuzzer.MutPerTrace (Fuzzer.mkFuzzer tt 0 []) < 2 ^ 64)
  ∧ ∃ g', Fuzzer.scoreAndMutate Examples.keepAll Examples.srvUp
            Examples.guider0 (Fuzzer.mkFuzzer tt 0 []) Examples.trace0
            Examples.events0
          = Returned (g', Fuzzer.mkFuzzer tt 0 [], []).
Proof.
  assert (- 2 ^ 63 ≤ 1 * Fuzzer.MutPerTrace (Fuzzer.mkFuzzer tt 0 []) ≤ 0
          ∨ 2 ^ 63 ≤ 1 * Fuzzer.MutPerTrace (Fuzzer.mkFuzzer tt 0 []) < 2 ^ 64)
    as Hr by (left; cbn; lia).
  split; [exact Hr|]. eexists.
  refine (scoreAndMutate_disabled Examples.keepAll Examples.srvUp
            Examples.guider0 _ (Fuzzer.mkFuzzer tt 0 []) Examples.trace0
            Examples.events0 _ _ 1 _ _ Hr).
  vm_compute. reflexivity.
Defined.

(** ** The Pub/Sub client, continued *)

Section ReceiverProps.
Import PubSub Receiver.

(** X15: with an empty buffer, [ReceiveMessage] waits under the client's
    context with the given timeout and returns a message only if the
    message channel, open, yields one; that message is acked if the
    client's mode is [AckModeAck] and nacked otherwise, exactly once; every
    other case is an error without any ack or nack.  The buffer stays
    empty. *)
Theorem ReceiveMessage_channel (c : PubSubClient) (timeout : Z)
    (sel : Selected) :
  messageBuffer c = [] →
  messageBuffer (ReceiveMessage c timeout sel).1.1 = []
  ∧ Wait (WithTimeout (ctx c) timeout) ∈ (ReceiveMessage c timeout sel).1.2
  ∧ (∀ m, (ReceiveMessage c timeout sel).2 = Ok m
          ↔ sel = FromMessageChan (Some m) true)
  ∧ List.filter isAckOrNack (ReceiveMessage c timeout sel).1.2
    = match sel with
      | FromMessageChan (Some m) true =>
          [match ackMode c with AckModeAck => Ack m | AckModeNack => Nack m end]
      | _ => []
      end.
Proof.
  intros Hbuf. unfold ReceiveMessage, startContinuousReceiver. rewrite Hbuf.
  destruct (receiverOnce c), sel as [[m|] [|]|err [|]|[|]], (ackMode c);
    cbn; rewrite ?Hbuf;
    (split; [reflexivity|]);
    (split; [set_solver|]);
    (split; [intros m'; split; intros [=]; subst; reflexivity | reflexivity]).
Qed.

Lemma ReceiveMessage_channel_witness :
  messageBuffer (withBuffer Examples.client0 []) = []
  ∧ List.filter isAckOrNack
      (ReceiveMessage (withBuffer Examples.client0 []) 5
                      (FromMessageChan (Some Examples.world) true)).1.2
    = [Ack Examples.world].
Proof.
  split; [reflexivity|].
  exact (proj2 (proj2 (proj2
    (ReceiveMessage_channel (withBuffer Examples.client0 []) 5
       (FromMessageChan (Some Examples.world) true) eq_refl)))).
Defined.

(** X16: buffering a message into a client whose buffer is empty and
    receiving gives the message back, without any effect outside, and the
    client is again as it was before. *)
Theorem BufferMessage_ReceiveMessage (c : PubSubClient) (msg : Message)
    (timeout : Z) (sel : Selected) :
  messageBuffer c = [] →
  ReceiveMessage (BufferMessage c msg) timeout sel = (c, [], Ok msg).
Proof.
  intros Hbuf. unfold BufferMessage. rewrite Hbuf. cbn.
  unfold ReceiveMessage, withBuffer. cbn. destruct c. cbn in *. by subst.
Qed.

Lemma BufferMessage_ReceiveMessage_witness :
  messageBuffer (withBuffer Examples.client0 []) = []
  ∧ ReceiveMessage (BufferMessage (withBuffer Examples.client0 [])
                                  Examples.world) 1 (CtxDone Canceled)
    = (withBuffer Examples.client0 [], [], Ok Examples.world).
Proof.
  split; [reflexivity|].
  exact (BufferMessage_ReceiveMessage (withBuffer Examples.client0 [])
           Examples.world 1 (CtxDone Canceled) eq_refl).
Defined.

Lemma runOp_once (c : PubSubClient) (op : Op) :
  (receiverOnce c = true →
   receiverOnce (runOp c op).1 = true
   ∧ List.filter isStart (runOp c op).2 = [])
  ∧ (receiverOnce c = false →
     List.filter isStart (runOp c op).2 = []
     ∨ (List.filter isStart (runOp c op).2 = [StartReceiver]
        ∧ receiverOnce (runOp c op).1 = true)).
Proof.
  destruct op as [timeout sel|msg|]; cbn.
  - unfold ReceiveMessage, startContinuousReceiver.
    destruct (messageBuffer c) as [|m rest].
    + destruct (receiverOnce c) eqn:Hc, sel as [[m|] [|]|err [|]|[|]],
        (ackMode c); cbn; rewrite ?Hc; split; intros; try discriminate;
        auto.
    + cbn. split; intros; auto.
  - split; intros; auto.
  - split; intros; auto.
Qed.

Lemma runOps_once_true (ops : list Op) (c : PubSubClient) :
  receiverOnce c = true → List.filter isStart (runOps c ops).2 = [].
Proof.
  revert c. induction ops as [|op ops IH]; intros c Hc; cbn [runOps snd]; [done|].
  destruct (runOp_once c op) as [Ht _]. destruct (Ht Hc) as [Hc' Hs].
  rewrite List.filter_app, Hs, (IH _ Hc'). reflexivity.
Qed.

(** X17: over any sequence of receives, bufferings and exits of the
    receiver goroutine, the receiver is started at most once; once the
    [sync.Once] has fired it is never started again, even after the
    goroutine has ended and cleared [receiverStarted]. *)
Theorem receiver_started_once (ops : list Op) (c : PubSubClient) :
  (length (List.filter isStart (runOps c ops).2) ≤ 1)%nat
  ∧ (receiverOnce c = true → List.filter isStart (runOps c ops).2 = []).
Proof.
  split; [|apply runOps_once_true].
  revert c. induction ops as [|op ops IH]; intros c; cbn [runOps snd]; [cbn; lia|].
  rewrite List.filter_app, length_app.
  destruct (receiverOnce c) eqn:Hc.
  - destruct (runOp_once c op) as [Ht _]. destruct (Ht Hc) as [Hc' ->].
    rewrite (runOps_once_true ops _ Hc'). cbn. lia.
  - destruct (runOp_once c op) as [_ Hf]. destruct (Hf Hc) as [->|[-> Hc']].
    + cbn. apply IH.
    + rewrite (runOps_once_true ops _ Hc'). cbn. lia.
Qed.

Lemma receiver_started_once_witness :
  receiverOnce (mkClient [] (WithCancel Background) AckModeNack false true)
  = true
  ∧ List.filter isStart
      (runOps (mkClient [] (WithCancel Background) AckModeNack false true)
              [OpReceive 5 (CtxDone DeadlineExceeded)]).2
    = [].
Proof.
  split; [reflexivity|].
  exact (proj2 (receiver_started_once [OpReceive 5 (CtxDone DeadlineExceeded)]
                  (mkClient [] (WithCancel Background) AckModeNack false true))
               eq_refl).
Defined.

Example receiver_not_restarted :
  (runOps (withBuffer Examples.client0 [])
          [OpReceive 5 (CtxDone DeadlineExceeded); OpReceiverDone;
           OpReceive 5 (CtxDone DeadlineExceeded)]).2
  = [StartReceiver; Wait (WithTimeout (WithCancel Background) 5);
     Wait (WithTimeout (WithCancel Background) 5)]
  ∧ receiverStarted
      (runOps (withBuffer Examples.client0 [])
              [OpReceive 5 (CtxDone DeadlineExceeded); OpReceiverDone;
               OpReceive 5 (CtxDone DeadlineExceeded)]).1
    = false.
Proof. split; reflexivity. Qed.

Lemma snoc_neq {A : Type} (l : list A) (x : A) : l ++ [x] ≠ l.
Proof.
  intros Heq. apply (f_equal length) in Heq. rewrite length_app in Heq.
  cbn in Heq. lia.
Qed.

(** X18: the receiver's callback keeps the message channel within its
    capacity of 100 and never reorders or removes queued messages.  It
    queues the message, nacks it or drops it, and never acks: it nacks
    exactly when no context is done and the channel is full, it drops
    without a nack only when a context is done, and it queues only when
    the first [select] found no context done and the channel has room. *)
Theorem onMessage_channel (first second : Dones) (pickSend : bool)
    (msg : Message) (messageChan : list Message) :
  (length messageChan ≤ messageChanCap)%nat →
  (length (onMessage first second pickSend msg messageChan).1
   ≤ messageChanCap)%nat
  ∧ (onMessage first second pickSend msg messageChan = (messageChan ++ [msg], [])
     ∨ onMessage first second pickSend msg messageChan
       = (messageChan, [Nack msg])
     ∨ onMessage first second pickSend msg messageChan = (messageChan, []))
  ∧ (onMessage first second pickSend msg messageChan = (messageChan, [Nack msg])
     ↔ anyDone first = false ∧ anyDone second = false
       ∧ length messageChan = messageChanCap)
  ∧ (onMessage first second pickSend msg messageChan = (messageChan, [])
     → anyDone first = true ∨ anyDone second = true)
  ∧ (onMessage first second pickSend msg messageChan
     = (messageChan ++ [msg], [])
     → anyDone first = false
       ∧ (length messageChan < messageChanCap)%nat).
Proof.
  intros Hlen. pose proof (snoc_neq messageChan msg) as Hneq.
  unfold onMessage, messageChanCap in *.
  destruct (anyDone first), (anyDone second), pickSend;
    try case_bool_decide;
    cbn [andb orb negb fst snd]; rewrite ?length_app; cbn [length];
    repeat split; auto; try lia; intros;
    try (simplify_eq; fail); try (simplify_eq; lia);
    try (exfalso; simplify_eq; congruence);
    try (destruct_and?; simplify_eq; lia).
Qed.

Lemma onMessage_channel_witness :
  (length [Examples.hello] ≤ messageChanCap)%nat
  ∧ onMessage (mkDones false false) (mkDones false false) false
              Examples.world [Examples.hello]
    = ([Examples.hello; Examples.world], []).
Proof.
  assert (length [Examples.hello] ≤ messageChanCap)%nat as Hl
    by (vm_compute; repeat constructor).
  split; [exact Hl|].
  destruct (onMessage_channel (mkDones false false) (mkDones false false) false
              Examples.world [Examples.hello] Hl) as (_ & _ & _ & _ & _).
  reflexivity.
Defined.

(** X19: when the receiver goroutine ends, [receiverStarted] is cleared
    and the [sync.Once] stays as it is; the error channel stays within its
    capacity of 10, keeps what it held, and never gets [context.Canceled]:
    an error is passed on only if it is another one and there is room. *)
Theorem receiverDone_errorChan (err : option goError) (done pickSend : bool)
    (c : PubSubClient) (errorChan : list goError) :
  (length errorChan ≤ errorChanCap)%nat →
  receiverStarted (receiverDone err done pickSend c errorChan).1 = false
  ∧ receiverOnce (receiverDone err done pickSend c errorChan).1 = receiverOnce c
  ∧ messageBuffer (receiverDone err done pickSend c errorChan).1
    = messageBuffer c
  ∧ (length (receiverDone err done pickSend c errorChan).2 ≤ errorChanCap)%nat
  ∧ ((receiverDone err done pickSend c errorChan).2 = errorChan
     ∨ ∃ e, err = Some e ∧ e ≠ CtxError Canceled
            ∧ (length errorChan < errorChanCap)%nat
            ∧ (receiverDone err done pickSend c errorChan).2 = errorChan ++ [e])
  ∧ (done = false → ∀ e, err = Some e → e ≠ CtxError Canceled →
     (length errorChan < errorChanCap)%nat →
     (receiverDone err done pickSend c errorChan).2 = errorChan ++ [e]).
Proof.
  intros Hlen. unfold receiverDone, errorChanCap in *. cbn [fst snd].
  split; [done|]. split; [done|]. split; [done|].
  destruct err as [e|]; [|split; [done|]; split; [by left | by intros]].
  case_bool_decide as He; [|split; [done|]; split; [by left|]; intros _ ? [= <-] ?; done].
  case_bool_decide as Hroom; cbn [andb].
  - destruct done, pickSend; cbn [negb orb]; rewrite ?length_app; cbn [length];
      (split; [lia|]); (split; [|intros; try discriminate]);
      first [by left | right; eauto 10 | idtac];
      try (match goal with H : Some _ = Some _ |- _ => injection H as <- end; reflexivity).
  - split; [done|]. split; [by left|]. intros _ e' [= <-] _ ?. lia.
Qed.

Lemma receiverDone_errorChan_witness :
  (length ([] : list goError) ≤ errorChanCap)%nat
  ∧ (receiverDone (Some (CtxError Canceled)) false false Examples.client0 []).2
    = []
  ∧ (receiverDone (Some (OtherError "unavailable")) false false
       Examples.client0 []).2
    = [OtherError "unavailable"].
Proof.
  assert (length ([] : list goError) ≤ errorChanCap)%nat as Hl
    by (vm_compute; repeat constructor).
  split; [exact Hl|]. split; [reflexivity|].
  destruct (receiverDone_errorChan (Some (OtherError "unavailable")) false false
              Examples.client0 [] Hl) as (_ & _ & _ & _ & _ & Hfw).
  apply (Hfw eq_refl (OtherError "unavailable") eq_refl);
    [discriminate | vm_compute; repeat constructor].
Defined.

Lemma waitReceiver_replicate (n i : nat) (c : PubSubClient)
    (stops : option nat) :
  waitReceiver n i (observed c stops)
  = replicate (if receiverStarted c
               then match stops with
                    | Some k => Nat.min n (k - i)
                    | None => n
                    end
               else 0%nat) (Sleep 10).
Proof.
  unfold observed. destruct (receiverStarted c); cbn [andb].
  - revert i. induction n as [|n IH]; intros i; cbn [waitReceiver].
    + destruct stops; reflexivity.
    + destruct stops as [k|].
      * case_bool_decide as Hk.
        -- rewrite IH.
           replace (Nat.min (S n) (k - i)) with (S (Nat.min n (k - S i)))
             by lia.
           reflexivity.
        -- replace (Nat.min (S n) (k - i)) with 0%nat by lia. reflexivity.
      * rewrite IH. reflexivity.
  - destruct n; reflexivity.
Qed.

(** X20: [Close] cancels the context and stops the topic first, then
    waits for the receiver in steps of 10 ms, at most 100 of them: none if
    no receiver was started, and otherwise as many as the goroutine takes
    to end; it closes the client in every case, and returns an error
    exactly when closing the client fails. *)
Theorem Close_calls (c : PubSubClient) (stops : option nat)
    (closeErr : option string) :
  ∃ sleeps,
    (Close c stops closeErr).1
    = [CancelCtx; StopTopic] ++ replicate sleeps (Sleep 10) ++ [CloseClient]
    ∧ (sleeps ≤ 100)%nat
    ∧ (receiverStarted c = false → sleeps = 0%nat)
    ∧ (receiverStarted c = true →
       sleeps = match stops with
                | Some k => Nat.min 100 k
                | None => 100%nat
                end)
    ∧ ((Close c stops closeErr).2 = None ↔ closeErr = None)
    ∧ (∀ err, closeErr = Some err →
       (Close c stops closeErr).2
       = Some ("failed to close pubsub client: " +:+ err)).
Proof.
  eexists. split.
  - unfold Close. rewrite waitReceiver_replicate.
    destruct closeErr; reflexivity.
  - destruct (receiverStarted c), stops as [k|]; rewrite ?Nat.sub_0_r;
      (split; [lia|]); (split; [try done; intros; lia|]);
      (split; [try done; intros; lia|]);
      unfold Close; destruct closeErr; cbn;
      (split; [split; intros; done || discriminate | intros ? [=]; by subst]).
Qed.

Example Close_slow_receiver :
  length (Close (mkClient [] (WithCancel Background) AckModeAck true true)
                None None).1
  = 103%nat.
Proof. vm_compute. reflexivity. Qed.

(** X21: on a client whose context has no deadline, publishing with a
    timeout of zero or less never ends in a timeout error: a failure is
    reported as "failed to publish message" with the error of the publish
    result, contexts reporting [DeadlineExceeded] only if they have a
    deadline. *)
Theorem PublishMessage_no_deadline (c : PubSubClient) (data : string)
    (attributes : option (gmap string string)) (timeout : Z) (w : Broker) :
  brokerSound w →
  hasDeadline (ctx c) = false →
  timeout ≤ 0 →
  ∀ e, (PublishMessage c data attributes timeout w).2.2 = Some e →
       ∃ err, getResult w (ctx c) (mkMessage "" data attributes) = Err err
              ∧ e = "failed to publish message: " +:+ err.
Proof.
  intros Hsound Hnd Hle e. unfold PublishMessage, publishContext.
  replace (0 <? timeout) with false by (symmetry; apply Z.ltb_ge; lia).
  destruct (getResult w (ctx c) _) as [id|err]; [discriminate|].
  destruct (ctxErr w (ctx c)) as [[|]|] eqn:E; cbn; intros [= <-]; eauto.
  apply Hsound in E. congruence.
Qed.

Lemma PublishMessage_no_deadline_witness :
  brokerSound Examples.brokerSlow
  ∧ hasDeadline (ctx Examples.client0) = false
  ∧ -1 ≤ 0
  ∧ ∃ err, getResult Examples.brokerSlow (ctx Examples.client0)
             (mkMessage "" "payload" None) = Err err
           ∧ "failed to publish message: context deadline exceeded"
             = "failed to publish message: " +:+ err.
Proof.
  assert (brokerSound Examples.brokerSlow) as Hs
    by (intros [| |]; cbn; intros; done).
  split; [exact Hs|]. split; [reflexivity|]. split; [lia|].
  exact (PublishMessage_no_deadline Examples.client0 "payload" None (-1)
           Examples.brokerSlow Hs eq_refl ltac:(lia) _ eq_refl).
Defined.

End ReceiverProps.

(** ** Building the Pub/Sub client *)

Section SetupProps.
Import PubSub Receiver Setup.

Ltac newClient_cases cfg w :=
  unfold NewPubSubClient, ensureSubscription;
  destruct (newClient w (ProjectID cfg) _) as [e0|];
  [|destruct (topicExists w (TopicID cfg)) as [[|]|e1];
    [|destruct (createTopic w (TopicID cfg)) as [e2|]|];
    try (destruct (subscriptionExists w (SubscriptionID cfg)) as [[|]|e3];
         [|destruct (createSubscription w (SubscriptionID cfg) _) as [e4|]|])];
  cbn [fst snd].

(** X22: [NewPubSubClient] cancels the context it made exactly when it
    fails, as its last step and once; when it succeeds it has not
    cancelled, and the client starts with an empty buffer, the configured
    ack mode, no receiver started and a context without deadline. *)
Theorem NewPubSubClient_cancel (cfg : Config) (w : Cloud) :
  match (NewPubSubClient cfg w).2 with
  | Err _ =>
      ∃ calls, (NewPubSubClient cfg w).1 = calls ++ [CallCancel]
               ∧ List.filter isCancel calls = []
  | Ok c =>
      List.filter isCancel (NewPubSubClient cfg w).1 = []
      ∧ c = mkClient [] (WithCancel Background) (AckMode cfg) false false
      ∧ hasDeadline (ctx c) = false
  end.
Proof.
  newClient_cases cfg w;
    try (split; [reflexivity | split; reflexivity]);
    eexists; (split; [reflexivity|]); reflexivity.
Qed.

(** X23: a successful [NewPubSubClient] has created the topic exactly if
    it did not exist, and the subscription exactly if it did not exist,
    in this order; the subscription is created on the configured topic,
    and with no negative duration, whatever the configuration holds. *)
Theorem NewPubSubClient_creates (cfg : Config) (w : Cloud) (c : PubSubClient) :
  (NewPubSubClient cfg w).2 = Ok c →
  ∃ texists sexists,
    topicExists w (TopicID cfg) = Ok texists
    ∧ subscriptionExists w (SubscriptionID cfg) = Ok sexists
    ∧ List.filter isCreate (NewPubSubClient cfg w).1
      = (if texists then [] else [CallCreateTopic (TopicID cfg)])
        ++ (if sexists then []
            else [CallCreateSubscription (SubscriptionID cfg)
                                         (subscriptionConfig cfg)])
    ∧ libTopic (subscriptionConfig cfg) = TopicID cfg
    ∧ 0 ≤ libAckDeadline (subscriptionConfig cfg)
    ∧ 0 ≤ libRetentionDuration (subscriptionConfig cfg)
    ∧ (∀ d, libExpirationPolicy (subscriptionConfig cfg) = Some d → 0 < d).
Proof.
  assert (libTopic (subscriptionConfig cfg) = TopicID cfg
          ∧ 0 ≤ libAckDeadline (subscriptionConfig cfg)
          ∧ 0 ≤ libRetentionDuration (subscriptionConfig cfg)
          ∧ (∀ d, libExpirationPolicy (subscriptionConfig cfg) = Some d → 0 < d))
    as Hcfg.
  { unfold subscriptionConfig. destruct (SubConfig cfg) as [sc|]; cbn;
      [|repeat split; (lia || done)].
    destruct (Z.ltb_spec 0 (AckDeadline sc)),
      (Z.ltb_spec 0 (RetentionDuration sc)),
      (Z.ltb_spec 0 (ExpirationPolicy sc));
      repeat split; try lia; try done; intros d [= <-]; lia. }
  unfold NewPubSubClient, ensureSubscription.
  revert Hcfg. generalize (subscriptionConfig cfg). intros sc Hcfg.
  destruct (newClient w (ProjectID cfg) _) as [e0|];
    [intros Hbad; cbn in Hbad; discriminate Hbad|].
  destruct (topicExists w (TopicID cfg)) as [[|]|e1];
    [| |intros Hbad; cbn in Hbad; discriminate Hbad].
  - destruct (subscriptionExists w (SubscriptionID cfg)) as [[|]|e3];
      [| |intros Hbad; cbn in Hbad; discriminate Hbad].
    + intros _. exists true, true. repeat split; apply Hcfg.
    + destruct (createSubscription w (SubscriptionID cfg) sc) as [e4|];
        [intros Hbad; cbn in Hbad; discriminate Hbad|].
      intros _. exists true, false. repeat split; apply Hcfg.
  - destruct (createTopic w (TopicID cfg)) as [e2|];
      [intros Hbad; cbn in Hbad; discriminate Hbad|].
    destruct (subscriptionExists w (SubscriptionID cfg)) as [[|]|e3];
      [| |intros Hbad; cbn in Hbad; discriminate Hbad].
    + intros _. exists false, true. repeat split; apply Hcfg.
    + destruct (createSubscription w (SubscriptionID cfg) sc) as [e4|];
        [intros Hbad; cbn in Hbad; discriminate Hbad|].
      intros _. exists false, false. repeat split; apply Hcfg.
Qed.

Lemma NewPubSubClient_creates_witness :
  (∃ c, (NewPubSubClient Examples2.config0 Examples2.cloudEmpty).2 = Ok c)
  ∧ List.filter isCreate
      (NewPubSubClient Examples2.config0 Examples2.cloudEmpty).1
    = [CallCreateTopic "test-topic";
       CallCreateSubscription "test-sub"
         (mkLibSubscriptionConfig "test-topic" 20000000000 0 None
                                  "attributes.type = 'test'")].
Proof.
  split; [eexists; reflexivity|].
  destruct (NewPubSubClient_creates Examples2.config0 Examples2.cloudEmpty _
              eq_refl) as (te & se & Ht & Hs & Hc & _).
  injection Ht as <-. injection Hs as <-. exact Hc.
Defined.

(** X24: [NewPubSubClient] first creates the library client, passing a
    credentials file only if the path is not empty, and gives up at the
    first failure: it looks at the subscription only once the client
    exists and the topic exists or has been created, and it creates a
    subscription only after finding that it does not exist. *)
Theorem NewPubSubClient_order (cfg : Config) (w : Cloud) :
  (∃ rest,
     (NewPubSubClient cfg w).1
     = CallNewClient (ProjectID cfg)
         (if bool_decide (Credentials cfg = "") then [] else [Credentials cfg])
       :: rest)
  ∧ (CallSubscriptionExists (SubscriptionID cfg) ∈ (NewPubSubClient cfg w).1 →
     (∃ opts, newClient w (ProjectID cfg) opts = None)
     ∧ (topicExists w (TopicID cfg) = Ok true
        ∨ (topicExists w (TopicID cfg) = Ok false
           ∧ createTopic w (TopicID cfg) = None)))
  ∧ (∀ sc, CallCreateSubscription (SubscriptionID cfg) sc
           ∈ (NewPubSubClient cfg w).1 →
     subscriptionExists w (SubscriptionID cfg) = Ok false).
Proof.
  split; [|split].
  - unfold NewPubSubClient.
    assert ((if bool_decide (Credentials cfg ≠ "") then [Credentials cfg] else [])
            = (if bool_decide (Credentials cfg = "") then []
               else [Credentials cfg])) as ->
      by (repeat case_bool_decide; congruence).
    destruct (newClient w (ProjectID cfg) _); [by eexists|].
    unfold ensureSubscription.
    destruct (topicExists w (TopicID cfg)) as [[|]|e1];
      [|destruct (createTopic w (TopicID cfg))|];
      try destruct (subscriptionExists w (SubscriptionID cfg)) as [[|]|e3];
      try destruct (createSubscription w (SubscriptionID cfg) _);
      by eexists.
  - unfold NewPubSubClient, ensureSubscription.
    destruct (newClient w (ProjectID cfg) _) as [e0|] eqn:E0.
    { cbn. intros Hin. exfalso. set_solver. }
    destruct (topicExists w (TopicID cfg)) as [[|]|e1] eqn:E1.
    + intros _. split; eauto.
    + destruct (createTopic w (TopicID cfg)) as [e2|] eqn:E2.
      * cbn. intros Hin. exfalso. set_solver.
      * intros _. split; eauto.
    + cbn. intros Hin. exfalso. set_solver.
  - intros sc. unfold NewPubSubClient, ensureSubscription.
    destruct (newClient w (ProjectID cfg) _) as [e0|].
    { cbn. intros Hin. exfalso. set_solver. }
    destruct (topicExists w (TopicID cfg)) as [[|]|e1];
      [|destruct (createTopic w (TopicID cfg)) as [e2|]|];
      try (cbn; intros Hin; exfalso; set_solver);
      destruct (subscriptionExists w (SubscriptionID cfg)) as [[|]|e3];
      try done; cbn; intros Hin; exfalso; set_solver.
Qed.

Lemma NewPubSubClient_order_witness :
  CallSubscriptionExists "test-sub"
    ∈ (NewPubSubClient Examples2.config0 Examples2.cloudEmpty).1
  ∧ (NewPubSubClient Examples2.config0 Examples2.cloudNoTopic).1
    = [CallNewClient "test-project" []; CallTopicExists "test-topic";
       CallCreateTopic "test-topic"; CallCancel]
  ∧ (topicExists Examples2.cloudEmpty "test-topic" = Ok true
     ∨ (topicExists Examples2.cloudEmpty "test-topic" = Ok false
        ∧ createTopic Examples2.cloudEmpty "test-topic" = None)).
Proof.
  assert (CallSubscriptionExists "test-sub"
            ∈ (NewPubSubClient Examples2.config0 Examples2.cloudEmpty).1) as Hin
    by (vm_compute; set_solver).
  split; [exact Hin|]. split; [reflexivity|].
  destruct (NewPubSubClient_order Examples2.config0 Examples2.cloudEmpty)
    as (_ & Hsub & _).
  exact (proj2 (Hsub Hin)).
Defined.

End SetupProps.
